(** * Market Fire Watch: credential store, watchlist store, indicator engine

    A shallow embedding of [auth.py] and of the data-handling methods of
    [Market Fire Watch.py].

    Conventions of the model.
    - The text of the entry field, the tickers and the label of the home
      page are lists of code points.  [str.upper] works code point by code
      point: below 128 it maps [a-z] to [A-Z] and keeps the rest; from 128 on
      it follows the case table of the interpreter, which is a parameter
      [uc] of the model.  User names, passwords, paths and the label of the
      login page are only compared and concatenated; they are kept as
      [string], the bytes of their UTF-8 form.
    - A JSON file is represented by the value [json.load] returns for it:
      [users.json] by a finite map from user names to records, a watchlist
      file by a list of strings.  The file system is a flat finite map from
      paths to contents, and every write is recorded in a log.  A path is
      the string the code builds: two spellings that the operating system
      would resolve to one file are two entries here, and nothing below is
      stated about them.
    - Widgets are reduced to the text of their labels; drawing and page
      navigation are left out.
    - Floating-point columns are modelled by exact rationals extended with
      the IEEE special values (one zero, no rounding). *)

From Stdlib Require Import Ascii String NArith QArith Qabs Qminmax Lqa.
From stdpp Require Import gmap strings list fin_maps.

Local Open Scope string_scope.

(** ** Python string primitives *)

Module PyStr.

(** A literal of the source, all of whose characters are ASCII. *)
Definition lit (s : string) : list N :=
  List.map N_of_ascii (list_ascii_of_string s).

Definition comma : N := 44.

(** The letters [a-z]. *)
Definition is_lower (c : N) : bool :=
  ((97 <=? c) && (c <=? 122))%N.

(** [str.isspace] on one code point: the controls 9-13 and 28-31, the
    space, U+0085, U+00A0, U+1680, U+2000-U+200A, U+2028, U+2029, U+202F,
    U+205F and U+3000. *)
Definition is_space (c : N) : bool :=
  (((9 <=? c) && (c <=? 13))
   || ((28 <=? c) && (c <=? 32))
   || (c =? 133) || (c =? 160) || (c =? 5760)
   || ((8192 <=? c) && (c <=? 8202))
   || (c =? 8232) || (c =? 8233) || (c =? 8239) || (c =? 8287)
   || (c =? 12288))%N.

(** The upper case of one code point is a string (of one code point below
    128, of up to three above). *)
Definition upper_char (uc : N -> list N) (c : N) : list N :=
  if (c <? 128)%N then [if is_lower c then (c - 32)%N else c] else uc c.

(** [s.upper()] *)
Definition upper (uc : N -> list N) (s : list N) : list N :=
  List.flat_map (upper_char uc) s.

(** [s.split(sep)] for a one-character separator: never the empty list. *)
Fixpoint split (sep : N) (s : list N) : list (list N) :=
  match s with
  | [] => [[]]
  | c :: s' =>
      if (c =? sep)%N then [] :: split sep s'
      else match split sep s' with
           | [] => [[c]]
           | h :: t => (c :: h) :: t
           end
  end.

Fixpoint lstrip (s : list N) : list N :=
  match s with
  | [] => []
  | c :: s' => if is_space c then lstrip s' else s
  end.

Fixpoint rstrip (s : list N) : list N :=
  match s with
  | [] => []
  | c :: s' =>
      match rstrip s' with
      | [] => if is_space c then [] else [c]
      | r => c :: r
      end
  end.

Definition strip (s : list N) : list N := rstrip (lstrip s).

(** Truth value of a string: non-empty. *)
Definition truthy (s : list N) : bool :=
  match s with [] => false | _ => true end.

(** [sep.join(l)] *)
Fixpoint join (sep : list N) (l : list (list N)) : list N :=
  match l with
  | [] => []
  | [x] => x
  | x :: rest => (x ++ sep ++ join sep rest)%list
  end.

(** [f"{x}"] for a value that is a string or [None]. *)
Definition format_opt (x : option string) : string :=
  match x with Some s => s | None => "None" end.

End PyStr.

(** ** auth.py *)

Module Auth.

(** The JSON object [{"password": ...}] stored per user. *)
Record user_record := { password : string }.

(** [users_file] is the content of [users.json] (created as [{}] by
    [__init__]); [users_writes] counts the calls of [save_users]. *)
Record t := {
  users_file : gmap string user_record;
  users_writes : nat;
  current_user : option string
}.

Definition load_users (a : t) : gmap string user_record := users_file a.

Definition save_users (a : t) (users : gmap string user_record) : t :=
  {| users_file := users;
     users_writes := S (users_writes a);
     current_user := current_user a |}.

Definition set_current_user (a : t) (u : option string) : t :=
  {| users_file := users_file a;
     users_writes := users_writes a;
     current_user := u |}.

Definition register (a : t) (username pw : string) : bool * t :=
  let users := load_users a in
  match users !! username with
  | Some _ => (false, a)
  | None =>
      let users := <[username := {| password := pw |}]> users in
      (true, save_users a users)
  end.

Definition login (a : t) (username pw : string) : bool * t :=
  let users := load_users a in
  match users !! username with
  | Some r =>
      if String.eqb (password r) pw
      then (true, set_current_user a (Some username))
      else (false, a)
  | None => (false, a)
  end.

Definition change_password (a : t) (username current_pw new_pw : string)
  : bool * t :=
  let users := load_users a in
  match users !! username with
  | Some r =>
      if String.eqb (password r) current_pw
      then
        let users := <[username := {| password := new_pw |}]> users in
        (true, save_users a users)
      else (false, a)
  | None => (false, a)
  end.

End Auth.

(** ** MainWindow, LoginPage and HomePage state *)

Record main_window := {
  auth : Auth.t;
  watchlist : list (list N);
  files : gmap string (list (list N));
  file_writes : list string;
  login_error_label : string;
  home_error_label : list N
}.

Definition set_auth (mw : main_window) (a : Auth.t) : main_window :=
  {| auth := a; watchlist := watchlist mw; files := files mw;
     file_writes := file_writes mw;
     login_error_label := login_error_label mw;
     home_error_label := home_error_label mw |}.

Definition set_watchlist (mw : main_window) (wl : list (list N))
  : main_window :=
  {| auth := auth mw; watchlist := wl; files := files mw;
     file_writes := file_writes mw;
     login_error_label := login_error_label mw;
     home_error_label := home_error_label mw |}.

Definition set_login_error (mw : main_window) (msg : string) : main_window :=
  {| auth := auth mw; watchlist := watchlist mw; files := files mw;
     file_writes := file_writes mw;
     login_error_label := msg;
     home_error_label := home_error_label mw |}.

Definition set_home_error (mw : main_window) (msg : list N) : main_window :=
  {| auth := auth mw; watchlist := watchlist mw; files := files mw;
     file_writes := file_writes mw;
     login_error_label := login_error_label mw;
     home_error_label := msg |}.

Definition watchlist_path (username : option string) : string :=
  PyStr.format_opt username +:+ "_watchlist.json".

(** [MainWindow.load_watchlist] *)
Definition load_watchlist (mw : main_window) (username : option string)
  : main_window :=
  let filepath := watchlist_path username in
  match files mw !! filepath with
  | Some content => set_watchlist mw content
  | None => set_watchlist mw []
  end.

(** [MainWindow.save_watchlist] *)
Definition save_watchlist (mw : main_window) (username : option string)
  : main_window :=
  let filepath := watchlist_path username in
  {| auth := auth mw; watchlist := watchlist mw;
     files := <[filepath := watchlist mw]> (files mw);
     file_writes := filepath :: file_writes mw;
     login_error_label := login_error_label mw;
     home_error_label := home_error_label mw |}.

(** [MainWindow.__init__]: nobody logged in, empty watchlist, on top of
    whatever the disk holds. *)
Definition new_main_window (disk : gmap string (list (list N)))
    (users : gmap string Auth.user_record) : main_window :=
  {| auth := {| Auth.users_file := users; Auth.users_writes := 0;
                Auth.current_user := None |};
     watchlist := []; files := disk; file_writes := [];
     login_error_label := ""; home_error_label := [] |}.

Module LoginPage.

Definition invalid_msg : string := "Invalid username or password.".

(** [LoginPage.login] on the texts of the two input fields. *)
Definition login (mw : main_window) (username pw : string) : main_window :=
  let '(ok, a) := Auth.login (auth mw) username pw in
  let mw := set_auth mw a in
  if ok then
    let mw := set_login_error mw "" in
    let mw := set_auth mw (Auth.set_current_user (auth mw) (Some username)) in
    load_watchlist mw (Some username)
  else set_login_error mw invalid_msg.

(** [LoginPage.register] *)
Definition register (mw : main_window) (username pw : string) : main_window :=
  let '(ok, a) := Auth.register (auth mw) username pw in
  let mw := set_auth mw a in
  if ok then set_login_error mw "Registration successful. Please login."
  else set_login_error mw "Username already taken.".

End LoginPage.

Module HomePage.

Definition too_many_msg : list N :=
  PyStr.lit "You can add up to 5 tickers at a time.".

(** The first two statements of [add_to_watchlist_from_entry]. *)
Definition parse_tickers (uc : N -> list N) (text : list N) : list (list N) :=
  let tickers := PyStr.split PyStr.comma (PyStr.upper uc text) in
  List.filter PyStr.truthy (List.map PyStr.strip tickers).

Definition mem (x : list N) (l : list (list N)) : bool :=
  bool_decide (x ∈ l).

Section Add.

(** The case table of [str.upper] from code point 128 on. *)
Variable uc : N -> list N.

(** [is_valid_ticker] asks the market-data provider; it is a parameter
    of the model. *)
Variable is_valid_ticker : list N -> bool.

(** One iteration of the [for ticker in tickers] loop, on the pair of
    the watchlist and [invalid_tickers]. *)
Definition add_step (acc : list (list N) * list (list N)) (ticker : list N)
  : list (list N) * list (list N) :=
  let '(wl, invalid_tickers) := acc in
  if (0 <? List.length ticker)%nat && negb (mem ticker wl)
     && (List.length wl <? 25)%nat
  then
    if is_valid_ticker ticker
    then ((wl ++ [ticker])%list, invalid_tickers)
    else (wl, (invalid_tickers ++ [ticker])%list)
  else (wl, invalid_tickers).

Definition add_loop (tickers : list (list N))
    (acc : list (list N) * list (list N)) : list (list N) * list (list N) :=
  fold_left add_step tickers acc.

Definition invalid_label (invalid_tickers : list (list N)) : list N :=
  match invalid_tickers with
  | [] => []
  | _ => (PyStr.lit "Invalid ticker(s): "
          ++ PyStr.join (PyStr.lit ", ") invalid_tickers
          ++ PyStr.lit ", try again.")%list
  end.

(** [HomePage.add_to_watchlist_from_entry] on the text of the entry
    field. *)
Definition add_to_watchlist_from_entry (mw : main_window) (text : list N)
  : main_window :=
  let tickers := parse_tickers uc text in
  if (5 <? List.length tickers)%nat then set_home_error mw too_many_msg
  else
    let '(wl, invalid_tickers) := add_loop tickers (watchlist mw, []) in
    let mw := set_watchlist mw wl in
    let mw := set_home_error mw (invalid_label invalid_tickers) in
    save_watchlist mw (Auth.current_user (auth mw)).

(** The list of invalid tickers the same call reports in its label. *)
Definition invalid_of (mw : main_window) (text : list N) : list (list N) :=
  snd (add_loop (parse_tickers uc text) (watchlist mw, [])).

End Add.

(** [list.remove(x)]: drops the first occurrence. *)
Fixpoint list_remove (x : list N) (l : list (list N)) : list (list N) :=
  match l with
  | [] => []
  | y :: l' => if bool_decide (x = y) then l' else y :: list_remove x l'
  end.

(** [HomePage.remove_from_watchlist] *)
Definition remove_from_watchlist (mw : main_window) (stock : list N)
  : main_window :=
  if mem stock (watchlist mw) then
    let mw := set_watchlist mw (list_remove stock (watchlist mw)) in
    save_watchlist mw (Auth.current_user (auth mw))
  else mw.

End HomePage.

(** ** Float columns *)

Local Open Scope Q_scope.

(** A cell of a float column: a finite number or one of the IEEE special
    values.  Arithmetic is exact on the finite part. *)
Inductive fval : Type :=
| Fin (q : Q)
| PInf
| NInf
| NaN.

Module F.

Definition ltb (x y : Q) : bool :=
  match x ?= y with Lt => true | _ => false end.

Definition neg (a : fval) : fval :=
  match a with
  | Fin x => Fin (- x)
  | PInf => NInf
  | NInf => PInf
  | NaN => NaN
  end.

Definition abs (a : fval) : fval :=
  match a with
  | Fin x => Fin (Qabs x)
  | PInf | NInf => PInf
  | NaN => NaN
  end.

Definition add (a b : fval) : fval :=
  match a, b with
  | NaN, _ | _, NaN => NaN
  | Fin x, Fin y => Fin (x + y)
  | PInf, NInf | NInf, PInf => NaN
  | PInf, _ | _, PInf => PInf
  | NInf, _ | _, NInf => NInf
  end.

Definition sub (a b : fval) : fval := add a (neg b).

(** The sign of an infinite product or quotient, from the sign of the
    finite operand. *)
Definition signed_inf (positive : bool) : fval :=
  if positive then PInf else NInf.

Definition mul (a b : fval) : fval :=
  match a, b with
  | NaN, _ | _, NaN => NaN
  | Fin x, Fin y => Fin (x * y)
  | Fin x, PInf | PInf, Fin x =>
      match x ?= 0 with
      | Eq => NaN
      | Gt => PInf
      | Lt => NInf
      end
  | Fin x, NInf | NInf, Fin x =>
      match x ?= 0 with
      | Eq => NaN
      | Gt => NInf
      | Lt => PInf
      end
  | PInf, PInf | NInf, NInf => PInf
  | PInf, NInf | NInf, PInf => NInf
  end.

Definition div (a b : fval) : fval :=
  match a, b with
  | NaN, _ | _, NaN => NaN
  | Fin x, Fin y =>
      match y ?= 0 with
      | Eq =>
          match x ?= 0 with
          | Eq => NaN
          | Gt => PInf
          | Lt => NInf
          end
      | _ => Fin (x / y)
      end
  | Fin _, (PInf | NInf) => Fin 0
  | PInf, Fin y => signed_inf (negb (ltb y 0))
  | NInf, Fin y => signed_inf (ltb y 0)
  | (PInf | NInf), (PInf | NInf) => NaN
  end.

(** [a > 0] and [a < 0] as pandas evaluates them: false on NaN. *)
Definition gt0 (a : fval) : bool :=
  match a with
  | Fin x => ltb 0 x
  | PInf => true
  | NInf | NaN => false
  end.

Definition lt0 (a : fval) : bool :=
  match a with
  | Fin x => ltb x 0
  | NInf => true
  | PInf | NaN => false
  end.

(** [max] and [min] of two cells as a row reduction with [skipna] takes
    them: a NaN cell is passed over. *)
Definition max2 (a b : fval) : fval :=
  match a, b with
  | NaN, c | c, NaN => c
  | Fin x, Fin y => Fin (Qmax x y)
  | PInf, _ | _, PInf => PInf
  | NInf, c | c, NInf => c
  end.

Definition min2 (a b : fval) : fval :=
  match a, b with
  | NaN, c | c, NaN => c
  | Fin x, Fin y => Fin (Qmin x y)
  | NInf, _ | _, NInf => NInf
  | PInf, c | c, PInf => c
  end.

(** [x.clip(lower=lo)] and [x.clip(upper=hi)] on one cell: NaN stays. *)
Definition clip_lower (lo : Q) (a : fval) : fval :=
  match a with NaN => NaN | _ => max2 a (Fin lo) end.

Definition clip_upper (hi : Q) (a : fval) : fval :=
  match a with NaN => NaN | _ => min2 a (Fin hi) end.

Definition is_obs (a : fval) : bool :=
  match a with NaN => false | _ => true end.

Definition is_finite (a : fval) : Prop :=
  match a with Fin _ => True | _ => False end.

(** Equality of cells up to equality of rationals. *)
Definition eq (a b : fval) : Prop :=
  match a, b with
  | Fin x, Fin y => x == y
  | PInf, PInf | NInf, NInf | NaN, NaN => True
  | _, _ => False
  end.

(** [x.replace([np.inf, -np.inf], np.nan)] and [x.fillna(0)] on one cell. *)
Definition replace_inf (a : fval) : fval :=
  match a with PInf | NInf => NaN | _ => a end.

Definition fillna (v : Q) (a : fval) : fval :=
  match a with NaN => Fin v | _ => a end.

End F.

(** ** Series operations of pandas *)

Module Series.

Definition of_prices (xs : list Q) : list fval := List.map Fin xs.

(** [s.shift()] *)
Definition shift (xs : list fval) : list fval :=
  match xs with
  | [] => []
  | _ :: _ => NaN :: removelast xs
  end.

(** [s.diff()], that is [s - s.shift()] *)
Definition diff (xs : list fval) : list fval :=
  zip_with F.sub xs (shift xs).

(** [s.where(cond, other)] *)
Definition series_where (cond : fval -> bool) (other : fval)
    (xs : list fval) : list fval :=
  List.map (fun x => if cond x then x else other) xs.

Definition sum (xs : list fval) : fval := foldr F.add (Fin 0) xs.

(** The cells a rolling window of size [w] covers at index [i]. *)
Definition window_at (w i : nat) (xs : list fval) : list fval :=
  drop (i + 1 - w) (take (i + 1) xs).

(** Mean of the observations (non-NaN cells) of one window, NaN when
    there are fewer than [minp] of them or none. *)
Definition window_mean (minp : nat) (win : list fval) : fval :=
  let obs := List.filter F.is_obs win in
  let n := List.length obs in
  if (minp <=? n)%nat && (0 <? n)%nat
  then F.div (sum obs) (Fin (inject_Z (Z.of_nat n)))
  else NaN.

(** [s.rolling(window=w, min_periods=minp).mean()] *)
Definition rolling_mean (w minp : nat) (xs : list fval) : list fval :=
  List.map (fun i => window_mean minp (window_at w i xs))
           (seq 0 (List.length xs)).

(** [s.ewm(span=span, adjust=False).mean()] on a column without NaN:
    [y0 = x0], [yt = (1 - alpha) * y(t-1) + alpha * xt]. *)
Fixpoint ewm_from (alpha prev : Q) (xs : list Q) : list Q :=
  match xs with
  | [] => []
  | x :: rest =>
      let y := ((1 - alpha) * prev + alpha * x)%Q in
      y :: ewm_from alpha y rest
  end.

Definition ewm_mean (span : nat) (xs : list Q) : list Q :=
  let alpha := (2 / (inject_Z (Z.of_nat span) + 1))%Q in
  match xs with
  | [] => []
  | x :: rest => x :: ewm_from alpha x rest
  end.

(** [pd.concat([a, b, c], axis=1).max(axis=1)]: NaN cells are skipped. *)
Definition row_max3 (a b c : fval) : fval := F.max2 (F.max2 a b) c.

(** A column assigned from the empty [pd.Series(dtype=float)]. *)
Definition empty_column {A} (index : list A) : list fval :=
  List.map (fun _ => NaN) index.

End Series.

(** ** StockDetailsPage: the indicator engine *)

(** One row of the table the market-data provider returns. *)
Record bar := { Open : Q; High : Q; Low : Q; Close : Q; Volume : Z }.

Module StockDetailsPage.

Import Series.

Definition col (f : bar -> Q) (data : list bar) : list fval :=
  of_prices (List.map f data).

(** The [SMA_n] and [EMA_n] columns of [plot_data]. *)
Definition sma_column (data : list bar) (sma_period : nat) : list fval :=
  if (0 <? sma_period)%nat
  then rolling_mean sma_period sma_period (col Close data)
  else empty_column data.

Definition ema_column (data : list bar) (ema_period : nat) : list fval :=
  if (0 <? ema_period)%nat
  then of_prices (ewm_mean ema_period (List.map Close data))
  else empty_column data.

(** [calculate_rsi], line by line. *)
Definition rsi_delta (series : list Q) : list fval :=
  diff (of_prices series).

Definition rsi_gain (series : list Q) : list fval :=
  series_where F.gt0 (Fin 0) (rsi_delta series).

Definition rsi_loss (series : list Q) : list fval :=
  List.map F.neg (series_where F.lt0 (Fin 0) (rsi_delta series)).

Definition rsi_avg_gain (series : list Q) (period : nat) : list fval :=
  rolling_mean period period (rsi_gain series).

Definition rsi_avg_loss (series : list Q) (period : nat) : list fval :=
  rolling_mean period period (rsi_loss series).

Definition rsi_rs (series : list Q) (period : nat) : list fval :=
  zip_with F.div (rsi_avg_gain series period) (rsi_avg_loss series period).

(** [100 - (100 / (1 + rs))].  The loss column of the code holds IEEE
    negative zeros, so an infinite [rs] can carry either sign; both give
    100 here, as they do in IEEE arithmetic. *)
Definition rsi_of_rs (rs : fval) : fval :=
  F.sub (Fin 100) (F.div (Fin 100) (F.add (Fin 1) rs)).

Definition calculate_rsi (series : list Q) (period : nat) : list fval :=
  List.map rsi_of_rs (rsi_rs series period).

(** [calculate_adx], line by line. *)
Definition adx_tr (data : list bar) : list fval :=
  let high := col High data in
  let low := col Low data in
  let close := col Close data in
  let tr1 := zip_with F.sub high low in
  let tr2 := List.map F.abs (zip_with F.sub high (shift close)) in
  let tr3 := List.map F.abs (zip_with F.sub low (shift close)) in
  zip_with (fun ab c => row_max3 (fst ab) (snd ab) c)
           (zip_with pair tr1 tr2) tr3.

Definition adx_atr (data : list bar) (period : nat) : list fval :=
  rolling_mean period 1 (adx_tr data).

Definition adx_plus_dm (data : list bar) : list fval :=
  List.map (F.clip_lower 0) (diff (col High data)).

Definition adx_minus_dm (data : list bar) : list fval :=
  List.map F.abs (List.map (F.clip_upper 0) (diff (col Low data))).

Definition adx_smoothed_plus_dm (data : list bar) (period : nat) :=
  rolling_mean period 1 (adx_plus_dm data).

Definition adx_smoothed_minus_dm (data : list bar) (period : nat) :=
  rolling_mean period 1 (adx_minus_dm data).

Definition di_of (smoothed_dm atr : fval) : fval :=
  F.div (F.mul (Fin 100) smoothed_dm) atr.

(** [plus_di] and [minus_di] before they are cleaned. *)
Definition adx_plus_di_raw (data : list bar) (period : nat) : list fval :=
  zip_with di_of (adx_smoothed_plus_dm data period) (adx_atr data period).

Definition adx_minus_di_raw (data : list bar) (period : nat) : list fval :=
  zip_with di_of (adx_smoothed_minus_dm data period) (adx_atr data period).

Definition dx_of (plus_di minus_di : fval) : fval :=
  F.mul (Fin 100)
        (F.abs (F.div (F.sub plus_di minus_di) (F.add plus_di minus_di))).

Definition adx_dx (data : list bar) (period : nat) : list fval :=
  zip_with dx_of (adx_plus_di_raw data period) (adx_minus_di_raw data period).

Definition adx_raw (data : list bar) (period : nat) : list fval :=
  rolling_mean period 1 (adx_dx data period).

Definition clean (xs : list fval) : list fval :=
  List.map (fun x => F.fillna 0 (F.replace_inf x)) xs.

(** [calculate_adx]: the triple [(adx, plus_di, minus_di)].  With
    [period = 0] pandas refuses [rolling(window=0, min_periods=1)] with a
    [ValueError]: the result is [None]. *)
Definition calculate_adx (data : list bar) (period : nat)
  : option (list fval * list fval * list fval) :=
  if (period =? 0)%nat then None
  else Some (clean (adx_raw data period),
             clean (adx_plus_di_raw data period),
             clean (adx_minus_di_raw data period)).

End StockDetailsPage.

(** The watchlist states reachable from a window whose watchlist is empty
    by calls of [add_to_watchlist_from_entry] and [remove_from_watchlist];
    the answers of the market-data provider may change from call to call. *)
Inductive reachable (uc : N -> list N) : main_window -> Prop :=
| reach_empty mw :
    watchlist mw = [] -> reachable uc mw
| reach_add valid mw text :
    reachable uc mw ->
    reachable uc (HomePage.add_to_watchlist_from_entry uc valid mw text)
| reach_remove mw stock :
    reachable uc mw ->
    reachable uc (HomePage.remove_from_watchlist mw stock).

(** The per-ticker rule of the watchlist store as the specification words
    it: from watchlist [wl] and invalid list [inv], ticker [t] leads to
    [wl'] and [inv']. *)
Definition add_one_spec (valid : list N -> bool)
    (wl inv : list (list N)) (t : list N) (wl' inv' : list (list N)) : Prop :=
  ((t ∉ wl) ∧ (List.length wl < 25)%nat ∧ valid t = true ->
     wl' = (wl ++ [t])%list ∧ inv' = inv) ∧
  ((t ∉ wl) ∧ (List.length wl < 25)%nat ∧ valid t = false ->
     wl' = wl ∧ inv' = (inv ++ [t])%list) ∧
  ((t ∈ wl) ∨ (25 <= List.length wl)%nat ->
     wl' = wl ∧ inv' = inv).

(** ** Sessions *)

(** [MainWindow.logout]: the watchlist in memory is left as it is. *)
Definition logout (mw : main_window) : main_window :=
  set_auth mw (Auth.set_current_user (auth mw) None).

(** The states of a session of user [u]: a successful login, then calls of
    [add_to_watchlist_from_entry] and [remove_from_watchlist]. *)
Inductive in_session (uc : N -> list N) (u : string) : main_window -> Prop :=
| session_login mw pw :
    fst (Auth.login (auth mw) u pw) = true ->
    in_session uc u (LoginPage.login mw u pw)
| session_add valid mw text :
    in_session uc u mw ->
    in_session uc u (HomePage.add_to_watchlist_from_entry uc valid mw text)
| session_remove mw stock :
    in_session uc u mw ->
    in_session uc u (HomePage.remove_from_watchlist mw stock).

(** ** Python dictionaries with string keys, in insertion order *)

Module PyDict.

(** [d[k]]: [None] stands for [KeyError]. *)
Fixpoint get {V} (k : string) (d : list (string * V)) : option V :=
  match d with
  | [] => None
  | (k', v) :: rest => if String.eqb k k' then Some v else get k rest
  end.

(** [d[k] = v]: an existing key keeps its place, a new one goes last. *)
Fixpoint set {V} (k : string) (v : V) (d : list (string * V))
  : list (string * V) :=
  match d with
  | [] => [(k, v)]
  | (k', v') :: rest =>
      if String.eqb k k' then (k', v) :: rest else (k', v') :: set k v rest
  end.

(** [sum(d.values())] for a dictionary of booleans. *)
Definition count_true (d : list (string * bool)) : nat :=
  List.length (List.filter snd d).

End PyDict.

(** ** StockDetailsPage: what is shown *)

Module Toggles.

(** The fields of [StockDetailsPage] the toggle buttons change.  The colour
    of the buttons is left out. *)
Record t := {
  displayed_lines : list (string * bool);
  show_rsi : bool;
  show_adx : bool
}.

(** The end of [StockDetailsPage.__init__]. *)
Definition init : t :=
  {| displayed_lines :=
       [("Close Price", true); ("50-day SMA", false); ("200-day SMA", false);
        ("12-day EMA", false); ("Upper Bollinger Band", false);
        ("Lower Bollinger Band", false)]%string;
     show_rsi := false;
     show_adx := false |}.

(** The keys of [button_styles], which are the names the five line buttons
    pass to [toggle_line]. *)
Definition button_names : list string :=
  ["50-day SMA"; "200-day SMA"; "12-day EMA"; "Upper Bollinger Band";
   "Lower Bollinger Band"]%string.

Definition has_button (line_name : string) : bool :=
  bool_decide (line_name ∈ button_names).

Definition set_line (p : t) (line_name : string) (b : bool) : t :=
  {| displayed_lines := PyDict.set line_name b (displayed_lines p);
     show_rsi := show_rsi p; show_adx := show_adx p |}.

(** How a call ends: normally, or with a [KeyError] raised in the state
    reached so far. *)
Inductive outcome : Type :=
| Done (p : t)
| KeyError (p : t).

(** [toggle_line], up to the final redraw. *)
Definition toggle_line (p : t) (line_name : string) : outcome :=
  match PyDict.get line_name (displayed_lines p) with
  | None => KeyError p
  | Some true =>
      let p := set_line p line_name false in
      if has_button line_name then Done p else KeyError p
  | Some false =>
      let active_lines := PyDict.count_true (displayed_lines p) in
      if (active_lines <? 3)%nat then
        let p := set_line p line_name true in
        if has_button line_name then Done p else KeyError p
      else Done p
  end.

(** [toggle_rsi] and [toggle_adx], up to the final redraw. *)
Definition toggle_rsi (p : t) : t :=
  let rsi := negb (show_rsi p) in
  {| displayed_lines := displayed_lines p;
     show_rsi := rsi;
     show_adx := if rsi then false else show_adx p |}.

Definition toggle_adx (p : t) : t :=
  let adx := negb (show_adx p) in
  {| displayed_lines := displayed_lines p;
     show_rsi := if adx then false else show_rsi p;
     show_adx := adx |}.

(** What [plot_data] draws below the price chart. *)
Inductive panel : Type := NoPanel | RsiPanel | AdxPanel.

(** [self.data is None or self.data.empty] *)
Definition no_data (data : option (list bar)) : bool :=
  match data with
  | None | Some [] => true
  | Some (_ :: _) => false
  end.

(** The lower panel after a call of [plot_data] on [self.data]: [None]
    when the call returns at its first statement and draws nothing. *)
Definition secondary_panel (p : t) (data : option (list bar))
  : option panel :=
  if no_data data then None
  else if show_rsi p || show_adx p then
    if show_rsi p then Some RsiPanel else Some AdxPanel
  else Some NoPanel.

(** The states the buttons lead to from the initial one. *)
Inductive reachable : t -> Prop :=
| reach_init : reachable init
| reach_line p line_name p' :
    reachable p -> line_name ∈ button_names ->
    toggle_line p line_name = Done p' -> reachable p'
| reach_rsi p : reachable p -> reachable (toggle_rsi p)
| reach_adx p : reachable p -> reachable (toggle_adx p).

End Toggles.

(** ** StockDetailsPage.plot_data: the columns with a fixed period *)

Module PlotData.

Import Series.

(** [column.isna().all()] *)
Definition isna_all (xs : list fval) : bool :=
  forallb (fun x => negb (F.is_obs x)) xs.

Definition closes (data : list bar) : list Q := List.map Close data.

Definition sma_50_column (data : list bar) : list fval :=
  if (50 <=? List.length data)%nat
  then rolling_mean 50 50 (StockDetailsPage.col Close data)
  else empty_column data.

Definition sma_200_column (data : list bar) : list fval :=
  if (200 <=? List.length data)%nat
  then rolling_mean 200 200 (StockDetailsPage.col Close data)
  else empty_column data.

Definition ema_12_column (data : list bar) : list fval :=
  if (12 <=? List.length data)%nat
  then of_prices (ewm_mean 12 (closes data))
  else empty_column data.

(** The conditions under which [plot_data] draws the lines that depend on
    a period: the line is switched on (for the two spin boxes: the period
    is positive) and its column is not all NaN.  [None] stands for the
    [KeyError] of a missing switch. *)
Definition draws_sma_50 (p : Toggles.t) (data : list bar) : option bool :=
  match PyDict.get "50-day SMA" (Toggles.displayed_lines p) with
  | Some b => Some (b && negb (isna_all (sma_50_column data)))
  | None => None
  end.

Definition draws_sma_200 (p : Toggles.t) (data : list bar) : option bool :=
  match PyDict.get "200-day SMA" (Toggles.displayed_lines p) with
  | Some b => Some (b && negb (isna_all (sma_200_column data)))
  | None => None
  end.

Definition draws_ema_12 (p : Toggles.t) (data : list bar) : option bool :=
  match PyDict.get "12-day EMA" (Toggles.displayed_lines p) with
  | Some b => Some (b && negb (isna_all (ema_12_column data)))
  | None => None
  end.

(** The columns [SMA_n] and [EMA_n] of the two spin boxes as [plot_data]
    reads them when it draws.  The column is named after the period, so
    with a period of 50 or 200 (or a span of 12) it is the very column
    [SMA_50] or [SMA_200] (or [EMA_12]), which is assigned again further
    down. *)
Definition custom_sma_column (data : list bar) (sma_period : nat)
  : list fval :=
  if (sma_period =? 50)%nat then sma_50_column data
  else if (sma_period =? 200)%nat then sma_200_column data
  else StockDetailsPage.sma_column data sma_period.

Definition custom_ema_column (data : list bar) (ema_period : nat)
  : list fval :=
  if (ema_period =? 12)%nat then ema_12_column data
  else StockDetailsPage.ema_column data ema_period.

Definition draws_custom_sma (data : list bar) (sma_period : nat) : bool :=
  (0 <? sma_period)%nat
  && negb (isna_all (custom_sma_column data sma_period)).

Definition draws_custom_ema (data : list bar) (ema_period : nat) : bool :=
  (0 <? ema_period)%nat
  && negb (isna_all (custom_ema_column data ema_period)).

End PlotData.

(** ** Predicates and sample inputs used in the statements *)

(** A fragment of the case table, for the examples: U+00E9 (e with acute)
    gives U+00C9, U+00DF (sharp s) gives "SS", and every other code point
    from 128 on is kept.  On ASCII text [PyStr.upper] does not depend on
    the table. *)
Definition uc_sample (c : N) : list N :=
  if (c =? 233)%N then [201%N]
  else if (c =? 223)%N then [83%N; 83%N]
  else [c].

(** No upper case holds a comma. *)
Definition comma_free (uc : N -> list N) : Prop :=
  forall c : N, (128 <= c)%N -> PyStr.comma ∉ uc c.

(** No upper case holds one of the letters [a-z]. *)
Definition lower_free (uc : N -> list N) : Prop :=
  forall c d : N, (128 <= c)%N -> d ∈ uc c -> PyStr.is_lower d = false.

(** The entries of the text as the specification words them: the
    comma-separated pieces, each trimmed and upper-cased. *)
Definition spec_entries (uc : N -> list N) (text : list N) : list (list N) :=
  List.map (fun e => PyStr.strip (PyStr.upper uc e))
           (PyStr.split PyStr.comma text).

(** The numbers among the cells of a window, and their sum. *)
Definition defined_values (win : list fval) : list Q :=
  omap (fun x => match x with Fin q => Some q | _ => None end) win.

Definition Qsum (qs : list Q) : Q := foldr Qplus 0 qs.

(** The invariant of the watchlist. *)
Definition wl_inv (wl : list (list N)) : Prop :=
  NoDup wl ∧ (List.length wl <= 25)%nat.

(** A string that does not begin with white space. *)
Definition no_leading_space (s : list N) : Prop :=
  match s with
  | [] => True
  | c :: _ => PyStr.is_space c = false
  end.

(** Cells that are finite or NaN. *)
Definition fin_or_nan (a : fval) : Prop :=
  match a with Fin _ | NaN => True | _ => False end.

(** Finite cells that are not negative. *)
Definition nonneg (a : fval) : Prop :=
  match a with Fin q => 0 <= q | _ => False end.

Definition nonneg_or_nan (a : fval) : Prop :=
  match a with Fin q => 0 <= q | NaN => True | _ => False end.

(** Where a relative strength lives: not negative, or infinite, or NaN. *)
Definition rs_range (a : fval) : Prop :=
  match a with Fin q => 0 <= q | PInf | NaN => True | NInf => False end.

Definition rsi_range (a : fval) : Prop :=
  match a with Fin q => 0 <= q <= 100 | NaN => True | _ => False end.

(** Fourteen equal prices. *)
Definition flat_prices : list Q := repeat 1 14.

(** A bar given by its high, low and close. *)
Definition ohlc (h l c : Q) : bar :=
  {| Open := c; High := h; Low := l; Close := c; Volume := 0 |}.

(** One rising bar followed by fifteen bars that repeat it. *)
Definition rise_then_flat : list bar :=
  ohlc 2 1 1 :: repeat (ohlc 3 1 2) 15.

(** A ticker as the watchlist stores it: not empty, trimmed, without any
    of the letters [a-z] and without a comma. *)
Definition normal_ticker (t : list N) : Prop :=
  t ≠ [] ∧ PyStr.strip t = t ∧
  Forall (fun c => PyStr.is_lower c = false) t ∧
  PyStr.comma ∉ t.

(** The watchlist in memory is the one the file of user [u] gives back (an
    absent file standing for the empty list), and [u] is logged in. *)
Definition synced (u : string) (mw : main_window) : Prop :=
  Auth.current_user (auth mw) = Some u ∧
  watchlist (load_watchlist mw (Some u)) = watchlist mw.

(** A ticker the loop leaves alone when the watchlist is [wl]. *)
Definition settled (valid : list N -> bool) (wl : list (list N))
    (t : list N) : Prop :=
  List.length t = 0%nat ∨ t ∈ wl ∨ valid t = false
  ∨ (25 <= List.length wl)%nat.

(** The keys of [displayed_lines], in order. *)
Definition line_keys : list string :=
  ["Close Price"; "50-day SMA"; "200-day SMA"; "12-day EMA";
   "Upper Bollinger Band"; "Lower Bollinger Band"]%string.

(** What the toggle buttons keep true of the switches. *)
Definition lines_ok (d : list (string * bool)) : Prop :=
  List.map fst d = line_keys ∧
  PyDict.get "Close Price" d = Some true ∧
  (PyDict.count_true d <= 3)%nat.

(** Cells that are NaN or a number between [lo] and [hi]. *)
Definition between_or_nan (lo hi : Q) (a : fval) : Prop :=
  match a with Fin q => lo <= q <= hi | NaN => True | _ => False end.

(** Cells that are a number between [lo] and [hi]. *)
Definition between (lo hi : Q) (a : fval) : Prop :=
  match a with Fin q => lo <= q <= hi | _ => False end.

(** Prices that rise, or fall, from each row to the next. *)
Definition increasing (xs : list Q) : Prop :=
  forall i a b, xs !! i = Some a -> xs !! S i = Some b -> a < b.

Definition decreasing (xs : list Q) : Prop :=
  forall i a b, xs !! i = Some a -> xs !! S i = Some b -> b < a.

Definition positive_cell (a : fval) : Prop :=
  match a with Fin q => 0 < q | _ => False end.

Definition zero_cell (a : fval) : Prop :=
  match a with Fin q => q == 0 | _ => False end.

(** * Properties *)

(** ** Credential store *)

Section AuthFacts.

Import Auth.

Lemma register_taken a username pw r :
  users_file a !! username = Some r ->
  register a username pw = (false, a).
Proof. intros H. unfold register, load_users. by rewrite H. Qed.

Lemma register_fresh a username pw :
  users_file a !! username = None ->
  register a username pw =
    (true, save_users a (<[username := {| password := pw |}]> (users_file a))).
Proof. intros H. unfold register, load_users. by rewrite H. Qed.

Lemma login_true_iff a username pw :
  fst (login a username pw) = true <->
  exists r, users_file a !! username = Some r ∧ password r = pw.
Proof.
  unfold login, load_users.
  destruct (users_file a !! username) as [r|] eqn:Hu; simpl.
  - destruct (String.eqb (password r) pw) eqn:Hp; simpl.
    + apply String.eqb_eq in Hp. split; [eauto | done].
    + apply String.eqb_neq in Hp. split; [done |].
      intros (r' & Hr' & Hpw). congruence.
  - split; [done |]. intros (r & Hr & _). done.
Qed.

Lemma login_false_state a username pw :
  fst (login a username pw) = false -> login a username pw = (false, a).
Proof.
  unfold login, load_users.
  destruct (users_file a !! username) as [r|]; [|done].
  by destruct (String.eqb (password r) pw).
Qed.

End AuthFacts.

(** C3. [register] fails exactly when the user name is a key of the store
    (keys are compared as exact strings); a failed call leaves the store,
    the stored password included, and the file untouched and shows
    "Username already taken."; a successful call stores the password as
    given and writes the whole store once. *)
Theorem register_username_taken (mw : main_window) (username pw : string) :
  let a := auth mw in
  let r := Auth.register a username pw in
  (fst r = false <-> is_Some (Auth.users_file a !! username)) ∧
  (fst r = false ->
     snd r = a ∧
     Auth.users_file (snd r) !! username = Auth.users_file a !! username ∧
     login_error_label (LoginPage.register mw username pw)
       = "Username already taken."%string) ∧
  (fst r = true ->
     Auth.users_file (snd r)
       = <[username := {| Auth.password := pw |}]> (Auth.users_file a) ∧
     Auth.users_file (snd r) !! username = Some {| Auth.password := pw |} ∧
     Auth.users_writes (snd r) = S (Auth.users_writes a)).
Proof.
  intros a r. subst r a.
  destruct (Auth.users_file (auth mw) !! username) as [rec|] eqn:Hu.
  - unfold LoginPage.register.
    rewrite (register_taken _ _ pw _ Hu). simpl.
    split; [split; eauto |]. split; [done |]. intros [=].
  - rewrite (register_fresh _ _ pw Hu). simpl.
    split; [split; [done | intros [? [=]]] |].
    split; [intros [=] |]. intros _.
    split; [done |]. split; [apply lookup_insert_eq | done].
Qed.

Lemma register_username_taken_witness :
  let mw0 := new_main_window ∅ ∅ in
  let mw1 := LoginPage.register mw0 "bob" "pw1" in
  let r := Auth.register (auth mw1) "bob" "pw2" in
  fst r = false ∧
  Auth.users_file (snd r) !! "bob"%string = Some {| Auth.password := "pw1" |} ∧
  login_error_label (LoginPage.register mw1 "bob" "pw2")
    = "Username already taken."%string.
Proof.
  intros mw0 mw1 r.
  destruct (register_username_taken mw1 "bob" "pw2") as ([_ Htaken] & Hfail & _).
  fold r in Htaken, Hfail.
  assert (Hr : fst r = false) by (apply Htaken; vm_compute; eauto).
  destruct (Hfail Hr) as (_ & Hkeep & Hmsg).
  split; [exact Hr |]. split; [| exact Hmsg].
  rewrite Hkeep. vm_compute. reflexivity.
Defined.

(** C4. [login] succeeds exactly when the user name is known and the stored
    password equals the one given.  Any two failing attempts return the same
    value and show the same message, and each leaves its window as it was
    but for that message, whatever made it fail. *)
Theorem login_failures_indistinguishable :
  (forall (a : Auth.t) (username pw : string),
     fst (Auth.login a username pw) = true <->
     exists r, Auth.users_file a !! username = Some r ∧ Auth.password r = pw) ∧
  (forall (mw1 mw2 : main_window) (u1 p1 u2 p2 : string),
     fst (Auth.login (auth mw1) u1 p1) = false ->
     fst (Auth.login (auth mw2) u2 p2) = false ->
     fst (Auth.login (auth mw1) u1 p1) = fst (Auth.login (auth mw2) u2 p2) ∧
     login_error_label (LoginPage.login mw1 u1 p1)
       = login_error_label (LoginPage.login mw2 u2 p2) ∧
     LoginPage.login mw1 u1 p1 = set_login_error mw1 LoginPage.invalid_msg ∧
     LoginPage.login mw2 u2 p2 = set_login_error mw2 LoginPage.invalid_msg).
Proof.
  split; [apply login_true_iff |].
  intros mw1 mw2 u1 p1 u2 p2 H1 H2.
  pose proof (login_false_state _ _ _ H1) as E1.
  pose proof (login_false_state _ _ _ H2) as E2.
  unfold LoginPage.login. rewrite E1, E2. simpl.
  repeat split; by destruct mw1, mw2.
Qed.

Lemma login_failures_indistinguishable_witness :
  let mw :=
    new_main_window ∅ (<["bob"%string := {| Auth.password := "pw1" |}]> ∅) in
  LoginPage.login mw "bob" "wrong" = LoginPage.login mw "nobody" "x" ∧
  login_error_label (LoginPage.login mw "bob" "wrong")
    = "Invalid username or password."%string.
Proof.
  intros mw.
  destruct login_failures_indistinguishable as [_ H].
  destruct (H mw mw "bob" "wrong" "nobody" "x")%string
    as (_ & _ & E1 & E2); [vm_compute; reflexivity.. |].
  rewrite E1, E2. split; reflexivity.
Defined.

(** ** Watchlist store *)

Section WatchlistFacts.

Import HomePage.

Lemma mem_true x l : mem x l = true <-> x ∈ l.
Proof. unfold mem. apply bool_decide_eq_true. Qed.

Lemma mem_false x l : mem x l = false <-> x ∉ l.
Proof. unfold mem. apply bool_decide_eq_false. Qed.

Lemma list_remove_subset x l y : y ∈ list_remove x l -> y ∈ l.
Proof.
  induction l as [|z l IH]; simpl; [done |].
  destruct (bool_decide (x = z)); rewrite !elem_of_cons; intuition.
Qed.

Lemma list_remove_NoDup x l : NoDup l -> NoDup (list_remove x l).
Proof.
  induction 1 as [|z l Hz Hl IH]; simpl; [constructor |].
  destruct (bool_decide (x = z)); [done |].
  constructor; [| done]. intros Hin. by apply Hz, (list_remove_subset x).
Qed.

Lemma list_remove_length x l :
  (List.length (list_remove x l) <= List.length l)%nat.
Proof.
  induction l as [|z l IH]; simpl; [lia |].
  destruct (bool_decide (x = z)); simpl; lia.
Qed.

(** What one loop iteration does, by cases. *)
Lemma add_step_cases valid wl inv t :
  (0 < List.length t)%nat ->
  add_one_spec valid wl inv t
    (fst (add_step valid (wl, inv) t)) (snd (add_step valid (wl, inv) t)).
Proof.
  intros Hlen. unfold add_one_spec, add_step.
  apply Nat.ltb_lt in Hlen. rewrite Hlen. simpl.
  destruct (mem t wl) eqn:Hm; simpl.
  - apply mem_true in Hm. repeat split; intros; intuition.
  - apply mem_false in Hm.
    destruct (List.length wl <? 25)%nat eqn:Hc; simpl.
    + apply Nat.ltb_lt in Hc.
      destruct (valid t) eqn:Hv; simpl; repeat split; intros;
        try done; intuition; try congruence; lia.
    + apply Nat.ltb_ge in Hc. repeat split; intros; intuition; lia.
Qed.

Lemma add_step_inv valid wl inv t :
  wl_inv wl -> wl_inv (fst (add_step valid (wl, inv) t)).
Proof.
  intros [Hnd Hlen]. unfold add_step.
  destruct (0 <? List.length t)%nat; simpl; [| done].
  destruct (mem t wl) eqn:Hm; simpl; [done |].
  destruct (List.length wl <? 25)%nat eqn:Hc; simpl; [| done].
  destruct (valid t); simpl; [| done].
  apply mem_false in Hm. apply Nat.ltb_lt in Hc. split.
  - apply NoDup_app. split; [done |]. split; [| apply NoDup_singleton].
    intros x Hx Hx'. apply list_elem_of_singleton in Hx'. by subst.
  - rewrite length_app. simpl. lia.
Qed.

Lemma add_loop_inv valid tickers wl inv :
  wl_inv wl -> wl_inv (fst (add_loop valid tickers (wl, inv))).
Proof.
  revert wl inv. induction tickers as [|t ts IH]; intros wl inv H; [done |].
  change (add_loop valid (t :: ts) (wl, inv))
    with (add_loop valid ts (add_step valid (wl, inv) t)).
  destruct (add_step valid (wl, inv) t) as [wl1 inv1] eqn:E.
  apply IH. change wl1 with (fst (wl1, inv1)). rewrite <- E.
  by apply add_step_inv.
Qed.

Lemma add_loop_app valid pre post acc :
  add_loop valid (pre ++ post) acc
    = add_loop valid post (add_loop valid pre acc).
Proof. unfold add_loop. apply fold_left_app. Qed.

Lemma watchlist_add uc valid mw text :
  watchlist (add_to_watchlist_from_entry uc valid mw text) =
    if (5 <? List.length (parse_tickers uc text))%nat then watchlist mw
    else fst (add_loop valid (parse_tickers uc text) (watchlist mw, [])).
Proof.
  unfold add_to_watchlist_from_entry.
  destruct (5 <? List.length (parse_tickers uc text))%nat; [done |].
  by destruct (add_loop valid (parse_tickers uc text) (watchlist mw, [])).
Qed.

Lemma watchlist_remove mw stock :
  watchlist (remove_from_watchlist mw stock) =
    if mem stock (watchlist mw) then list_remove stock (watchlist mw)
    else watchlist mw.
Proof.
  unfold remove_from_watchlist. by destruct (mem stock (watchlist mw)).
Qed.

End WatchlistFacts.

(** C1, as amended. When the entry text parses to more than five tickers
    -- the comma-separated entries upper-cased and trimmed, those that are
    empty after trimming left out -- the call stops at the "You can add up
    to 5 tickers at a time." message: the watchlist, every file and the log
    of file writes stay as they were. *)
Theorem add_too_many_rejected (uc : N -> list N) (valid : list N -> bool)
    (mw : main_window) (text : list N) :
  (5 < List.length (HomePage.parse_tickers uc text))%nat ->
  let mw' := HomePage.add_to_watchlist_from_entry uc valid mw text in
  home_error_label mw'
    = PyStr.lit "You can add up to 5 tickers at a time." ∧
  watchlist mw' = watchlist mw ∧
  files mw' = files mw ∧
  file_writes mw' = file_writes mw ∧
  mw' = set_home_error mw HomePage.too_many_msg.
Proof.
  intros Hlen. simpl. unfold HomePage.add_to_watchlist_from_entry.
  apply Nat.ltb_lt in Hlen. rewrite Hlen. done.
Qed.

Lemma add_too_many_rejected_witness :
  let mw := new_main_window ∅ ∅ in
  let mw' := HomePage.add_to_watchlist_from_entry uc_sample (fun _ => true) mw
               (PyStr.lit "AAPL,MSFT,GOOG,AMZN,META,NFLX") in
  watchlist mw' = [] ∧ files mw' = ∅ ∧ file_writes mw' = [].
Proof.
  intros mw mw'.
  destruct (add_too_many_rejected uc_sample (fun _ => true) mw
              (PyStr.lit "AAPL,MSFT,GOOG,AMZN,META,NFLX"))
    as (_ & Hw & Hf & Hl & _).
  - vm_compute. lia.
  - subst mw'. rewrite Hw, Hf, Hl. done.
Defined.

(** C1, counterexample: the text "AAPL,MSFT,GOOG,AMZN,META," has six
    comma-separated entries, the last of them empty.  The call is not
    rejected: the five tickers enter the empty watchlist and the file is
    written. *)
Lemma add_trailing_comma_counterexample :
  let text := PyStr.lit "AAPL,MSFT,GOOG,AMZN,META," in
  let mw := new_main_window ∅ ∅ in
  let mw' :=
    HomePage.add_to_watchlist_from_entry uc_sample (fun _ => true) mw text in
  List.length (spec_entries uc_sample text) = 6%nat ∧
  home_error_label mw' = [] ∧
  watchlist mw = [] ∧
  watchlist mw'
    = List.map PyStr.lit ["AAPL"; "MSFT"; "GOOG"; "AMZN"; "META"]%string ∧
  file_writes mw = [] ∧
  file_writes mw' = ["None_watchlist.json"%string].
Proof. vm_compute. repeat split; reflexivity. Qed.

(** C7. A watchlist reachable from the empty one by adding and removing
    holds no ticker twice and at most 25 tickers. *)
Theorem reachable_watchlist_unique_bounded (uc : N -> list N)
    (mw : main_window) :
  reachable uc mw ->
  NoDup (watchlist mw) ∧ (List.length (watchlist mw) <= 25)%nat.
Proof.
  induction 1 as [mw H | valid mw text _ IH | mw stock _ IH].
  - rewrite H. split; [constructor | simpl; lia].
  - rewrite watchlist_add.
    destruct (5 <? List.length (HomePage.parse_tickers uc text))%nat; [done |].
    by apply add_loop_inv.
  - rewrite watchlist_remove.
    destruct (HomePage.mem stock (watchlist mw)); [| done].
    destruct IH as [Hnd Hlen]. split; [by apply list_remove_NoDup |].
    pose proof (list_remove_length stock (watchlist mw)). lia.
Qed.

Lemma reachable_watchlist_unique_bounded_witness :
  let mw :=
    HomePage.remove_from_watchlist
      (HomePage.add_to_watchlist_from_entry uc_sample (fun _ => true)
         (new_main_window ∅ ∅) (PyStr.lit "aapl, msft, aapl, goog"))
      (PyStr.lit "MSFT") in
  watchlist mw = [PyStr.lit "AAPL"; PyStr.lit "GOOG"] ∧
  NoDup (watchlist mw) ∧ (List.length (watchlist mw) <= 25)%nat.
Proof.
  intros mw. split; [reflexivity |].
  apply (reachable_watchlist_unique_bounded uc_sample).
  subst mw. apply reach_remove, reach_add, reach_empty. reflexivity.
Defined.



(** C10. Removing a ticker that is not in the watchlist changes nothing:
    the watchlist, the files, the log of file writes and the labels are
    those of before, and the call returns normally. *)
Theorem remove_absent_noop (mw : main_window) (stock : list N) :
  stock ∉ watchlist mw ->
  HomePage.remove_from_watchlist mw stock = mw.
Proof.
  intros H. unfold HomePage.remove_from_watchlist.
  apply mem_false in H. by rewrite H.
Qed.

Lemma remove_absent_noop_witness :
  let mw := set_watchlist (new_main_window ∅ ∅) [PyStr.lit "AAPL"] in
  HomePage.remove_from_watchlist mw (PyStr.lit "MSFT") = mw.
Proof.
  intros mw. apply remove_absent_noop.
  subst mw. simpl. rewrite list_elem_of_singleton. discriminate.
Defined.

(** ** Parsing of the entry text *)

Section ParseFacts.

Import PyStr.

Variable uc : N -> list N.

Lemma upper_cons c s :
  upper uc (c :: s) = (upper_char uc c ++ upper uc s)%list.
Proof. reflexivity. Qed.

Lemma upper_char_below c :
  (c < 128)%N -> upper_char uc c = [if is_lower c then (c - 32)%N else c].
Proof. intros H%N.ltb_lt. unfold upper_char. by rewrite H. Qed.

Lemma upper_char_above c : (128 <= c)%N -> upper_char uc c = uc c.
Proof. intros H%N.ltb_ge. unfold upper_char. by rewrite H. Qed.

Lemma is_lower_range c : is_lower c = true <-> (97 <= c <= 122)%N.
Proof.
  unfold is_lower. rewrite andb_true_iff, !N.leb_le. done.
Qed.

Lemma upper_char_no_comma c :
  comma_free uc -> c ≠ comma -> comma ∉ upper_char uc c.
Proof.
  intros Hfree Hc. destruct (N.ltb_spec c 128) as [Hlt | Hge].
  - rewrite (upper_char_below c Hlt). rewrite list_elem_of_singleton.
    destruct (is_lower c) eqn:El; [| congruence].
    apply is_lower_range in El. unfold comma. lia.
  - rewrite (upper_char_above c Hge). by apply Hfree.
Qed.

Lemma upper_char_no_lower c d :
  lower_free uc -> d ∈ upper_char uc c -> is_lower d = false.
Proof.
  intros Hfree. destruct (N.ltb_spec c 128) as [Hlt | Hge].
  - rewrite (upper_char_below c Hlt). intros ->%list_elem_of_singleton.
    destruct (is_lower c) eqn:El; [| done].
    apply is_lower_range in El. apply not_true_is_false.
    rewrite is_lower_range. lia.
  - rewrite (upper_char_above c Hge). by apply Hfree.
Qed.

Lemma upper_no_lower s :
  lower_free uc -> Forall (fun d => is_lower d = false) (upper uc s).
Proof.
  intros Hfree. induction s as [|c s IH]; [constructor |].
  rewrite upper_cons. apply Forall_app. split; [| done].
  apply Forall_forall. intros d Hd. by apply (upper_char_no_lower c).
Qed.

Lemma split_not_nil sep s : split sep s ≠ [].
Proof.
  destruct s as [|c s]; simpl; [done |].
  destruct (c =? sep)%N; [done |]. by destruct (split sep s).
Qed.

Lemma split_app_no_sep sep l s :
  sep ∉ l ->
  split sep (l ++ s) =
    match split sep s with
    | [] => [l]
    | h :: t => (l ++ h)%list :: t
    end.
Proof.
  induction l as [|c l IH]; intros Hl; simpl.
  - pose proof (split_not_nil sep s). by destruct (split sep s).
  - apply not_elem_of_cons in Hl as [Hc Hl].
    rewrite (proj2 (N.eqb_neq c sep)) by congruence.
    rewrite (IH Hl). by destruct (split sep s).
Qed.

Lemma split_upper s :
  comma_free uc ->
  split comma (upper uc s) = List.map (upper uc) (split comma s).
Proof.
  intros Hfree. induction s as [|c s IH]; [done |].
  rewrite upper_cons. simpl split at 2.
  destruct (N.eqb_spec c comma) as [-> | Hc].
  - change (upper_char uc comma) with [comma]. simpl. by rewrite IH.
  - rewrite split_app_no_sep by (by apply upper_char_no_comma).
    rewrite IH. pose proof (split_not_nil comma s).
    destruct (split comma s) as [|h t]; [done |]. reflexivity.
Qed.

Lemma rstrip_idem s : rstrip (rstrip s) = rstrip s.
Proof.
  induction s as [|c s IH]; simpl; [done |].
  destruct (rstrip s) as [|d r] eqn:E.
  - destruct (is_space c) eqn:Hc; simpl; [done | by rewrite Hc].
  - change (rstrip (c :: d :: r)) with
      (match rstrip (d :: r) with
       | [] => if is_space c then [] else [c]
       | r' => c :: r'
       end).
    by rewrite IH.
Qed.

Lemma lstrip_no_leading_space s : no_leading_space (lstrip s).
Proof.
  induction s as [|c s IH]; simpl; [done |].
  by destruct (is_space c) eqn:Hc; simpl.
Qed.

Lemma lstrip_fixed s : no_leading_space s -> lstrip s = s.
Proof. destruct s as [|c s]; simpl; [done |]. by intros ->. Qed.

Lemma rstrip_no_leading_space s :
  no_leading_space s -> no_leading_space (rstrip s).
Proof.
  destruct s as [|c s]; simpl; [done |]. intros Hc.
  destruct (rstrip s); simpl; [by rewrite Hc | done].
Qed.

Lemma strip_idem s : strip (strip s) = strip s.
Proof.
  unfold strip. rewrite (lstrip_fixed (rstrip (lstrip s))).
  - apply rstrip_idem.
  - apply rstrip_no_leading_space, lstrip_no_leading_space.
Qed.

Lemma truthy_length s : truthy s = true -> (0 < List.length s)%nat.
Proof. destruct s; simpl; [done | lia]. Qed.

Lemma elem_of_lstrip c s : c ∈ lstrip s -> c ∈ s.
Proof.
  induction s as [|d s IH]; simpl; [done |].
  destruct (is_space d); [| done]. intros H. apply elem_of_cons. right. auto.
Qed.

Lemma elem_of_rstrip c s : c ∈ rstrip s -> c ∈ s.
Proof.
  induction s as [|d s IH]; simpl; [done |].
  destruct (rstrip s) as [|e r] eqn:E.
  - destruct (is_space d); simpl; [by intros ?%elem_of_nil |].
    intros ->%list_elem_of_singleton. apply elem_of_cons. by left.
  - intros [-> | H]%elem_of_cons; apply elem_of_cons; [by left |].
    right. by apply IH.
Qed.

Lemma elem_of_strip c s : c ∈ strip s -> c ∈ s.
Proof. intros H. by apply elem_of_lstrip, elem_of_rstrip. Qed.

(** A piece of a split holds characters of the text, and never the
    separator. *)
Lemma split_pieces sep s e c :
  e ∈ split sep s -> c ∈ e -> c ∈ s ∧ c ≠ sep.
Proof.
  revert e. induction s as [|d s IH]; intros e; simpl.
  - intros ->%list_elem_of_singleton Hc. by apply elem_of_nil in Hc.
  - destruct (N.eqb_spec d sep) as [-> | Hd].
    + intros [-> | He]%elem_of_cons Hc; [by apply elem_of_nil in Hc |].
      destruct (IH e He Hc). split; [apply elem_of_cons; by right | done].
    + pose proof (split_not_nil sep s).
      destruct (split sep s) as [|h t]; [done |].
      intros [-> | He]%elem_of_cons Hc.
      * apply elem_of_cons in Hc as [-> | Hc].
        -- split; [apply elem_of_cons; by left | done].
        -- destruct (IH h) as [? ?]; [apply elem_of_cons; by left | done |].
           split; [apply elem_of_cons; by right | done].
      * destruct (IH e) as [? ?]; [apply elem_of_cons; by right | done |].
        split; [apply elem_of_cons; by right | done].
Qed.

(** The parsed list is the list of the comma-separated entries, each
    upper-cased and trimmed, without the empty ones. *)
Lemma parse_tickers_entries text :
  comma_free uc ->
  HomePage.parse_tickers uc text = List.filter truthy (spec_entries uc text).
Proof.
  intros Hfree. unfold HomePage.parse_tickers, spec_entries.
  by rewrite split_upper, List.map_map.
Qed.

Lemma parse_tickers_pieces text t :
  t ∈ HomePage.parse_tickers uc text ->
  exists e, e ∈ split comma (upper uc text) ∧ t = strip e ∧ t ≠ [].
Proof.
  unfold HomePage.parse_tickers.
  rewrite list_elem_of_In, List.filter_In, List.in_map_iff.
  intros [(e & <- & He) Ht]. exists e.
  split; [by apply list_elem_of_In |]. split; [done |].
  intros E. by rewrite E in Ht.
Qed.

Lemma parse_tickers_normal text t :
  t ∈ HomePage.parse_tickers uc text ->
  strip t = t ∧ (0 < List.length t)%nat.
Proof.
  intros (e & _ & -> & Hne)%parse_tickers_pieces.
  split; [apply strip_idem |].
  destruct (strip e); [done | simpl; lia].
Qed.

Lemma parse_tickers_no_comma text t :
  t ∈ HomePage.parse_tickers uc text -> comma ∉ t.
Proof.
  intros (e & He & -> & _)%parse_tickers_pieces Hc.
  apply elem_of_strip in Hc.
  by destruct (split_pieces _ _ _ _ He Hc).
Qed.

Lemma parse_tickers_no_lower text t :
  lower_free uc ->
  t ∈ HomePage.parse_tickers uc text ->
  Forall (fun c => is_lower c = false) t.
Proof.
  intros Hfree (e & He & -> & _)%parse_tickers_pieces.
  apply Forall_forall. intros c Hc%elem_of_strip.
  destruct (split_pieces _ _ _ _ He Hc) as [Hin _].
  pose proof (upper_no_lower text Hfree) as Hall.
  rewrite Forall_forall in Hall. by apply Hall.
Qed.

End ParseFacts.

Lemma uc_sample_comma_free : comma_free uc_sample.
Proof.
  intros c Hc Hd. unfold uc_sample, PyStr.comma in *.
  destruct (c =? 233)%N; [| destruct (c =? 223)%N].
  - apply list_elem_of_singleton in Hd. discriminate.
  - apply elem_of_cons in Hd as [Hd | Hd]; [discriminate |].
    apply list_elem_of_singleton in Hd. discriminate.
  - apply list_elem_of_singleton in Hd. lia.
Qed.

Lemma uc_sample_lower_free : lower_free uc_sample.
Proof.
  intros c d Hc Hd. unfold uc_sample in Hd.
  destruct (c =? 233)%N; [| destruct (c =? 223)%N].
  - apply list_elem_of_singleton in Hd. by subst.
  - apply elem_of_cons in Hd as [-> | Hd]; [done |].
    apply list_elem_of_singleton in Hd. by subst.
  - apply list_elem_of_singleton in Hd. subst d. apply not_true_is_false.
    rewrite is_lower_range. lia.
Qed.

Section AddFacts.

Import HomePage.

Variable valid : list N -> bool.

Lemma add_loop_snoc ts t acc :
  add_loop valid (ts ++ [t]) acc = add_step valid (add_loop valid ts acc) t.
Proof. by rewrite add_loop_app. Qed.

(** The loop only appends: new entries are accepted tickers of the input;
    the invalid list holds rejected tickers that were not in the
    watchlist. *)
Lemma add_loop_global wl0 tickers :
  let r := add_loop valid tickers (wl0, []) in
  (exists added,
      fst r = (wl0 ++ added)%list ∧
      Forall (fun t => t ∈ tickers ∧ valid t = true) added) ∧
  Forall (fun t => t ∈ tickers ∧ valid t = false ∧ t ∉ wl0) (snd r).
Proof.
  induction tickers as [|t ts IH] using rev_ind; simpl.
  - split; [exists []; by rewrite app_nil_r | constructor].
  - rewrite add_loop_snoc.
    destruct (add_loop valid ts (wl0, [])) as [wl inv].
    simpl in IH. destruct IH as [(added & -> & Hadded) Hinv].
    assert (Hadded' :
      Forall (fun x => x ∈ (ts ++ [t])%list ∧ valid x = true) added).
    { eapply Forall_impl; [exact Hadded |]. simpl.
      intros x [Hx ?]. split; [| done]. apply elem_of_app. by left. }
    assert (Hinv' :
      Forall (fun x => x ∈ (ts ++ [t])%list ∧ valid x = false ∧ x ∉ wl0) inv).
    { eapply Forall_impl; [exact Hinv |]. simpl.
      intros x (Hx & ? & ?). split; [| done]. apply elem_of_app. by left. }
    assert (Ht : t ∈ (ts ++ [t])%list).
    { apply elem_of_app. right. by apply list_elem_of_singleton. }
    unfold add_step.
    destruct (0 <? List.length t)%nat; simpl; [| eauto].
    destruct (mem t (wl0 ++ added)) eqn:Hm; simpl; [eauto |].
    destruct (List.length (wl0 ++ added) <? 25)%nat; simpl; [| eauto].
    apply mem_false in Hm.
    destruct (valid t) eqn:Hv; simpl.
    + split; [| done]. exists (added ++ [t])%list.
      split; [by rewrite app_assoc |].
      apply Forall_app. split; [done |]. by repeat constructor.
    + split; [eauto |]. apply Forall_app. split; [done |].
      repeat constructor; [done.. |].
      intros Hin. apply Hm, elem_of_app. by left.
Qed.

End AddFacts.

(** C2. With at most five parsed tickers, the call takes the
    comma-separated entries, upper-cases and trims each and drops the empty
    ones; it then handles the tickers one after the other, each by the rule
    [add_one_spec]: appended when absent, below 25 entries and accepted by
    the validity check, put on the invalid list when absent, below 25 and
    rejected, and otherwise skipped without a trace; the rest of the list is
    processed all the same.  The watchlist only grows at its end by accepted
    tickers, the invalid list (the one the label shows) holds only rejected
    tickers that did not enter the watchlist, and the result is saved.  This
    holds for text of any code points: that upper-casing commutes with the
    split at commas uses that no upper case holds a comma, and that the
    stored tickers are free of [a-z] uses that no upper case holds one of
    these letters.  On the empty watchlist, "aapl, msft" with both accepted
    gives AAPL, MSFT and an empty invalid list. *)
Theorem add_tickers_rule :
  (forall (uc : N -> list N) (valid : list N -> bool) (mw : main_window)
          (text : list N),
     (List.length (HomePage.parse_tickers uc text) <= 5)%nat ->
     let tickers := HomePage.parse_tickers uc text in
     let run := fun ts => HomePage.add_loop valid ts (watchlist mw, []) in
     let mw' := HomePage.add_to_watchlist_from_entry uc valid mw text in
     (comma_free uc ->
      tickers = List.filter PyStr.truthy
                  (List.map (fun e => PyStr.strip (PyStr.upper uc e))
                            (PyStr.split PyStr.comma text))) ∧
     (forall t, t ∈ tickers ->
        PyStr.strip t = t ∧ t ≠ [] ∧ (PyStr.comma ∉ t) ∧
        (lower_free uc -> Forall (fun c => PyStr.is_lower c = false) t)) ∧
     (forall pre t post, tickers = (pre ++ t :: post)%list ->
        add_one_spec valid (fst (run pre)) (snd (run pre)) t
          (fst (run (pre ++ [t])%list)) (snd (run (pre ++ [t])%list)) ∧
        run tickers = HomePage.add_loop valid post (run (pre ++ [t])%list)) ∧
     watchlist mw' = fst (run tickers) ∧
     HomePage.invalid_of uc valid mw text = snd (run tickers) ∧
     home_error_label mw'
       = HomePage.invalid_label (HomePage.invalid_of uc valid mw text) ∧
     (exists added,
        watchlist mw' = (watchlist mw ++ added)%list ∧
        Forall (fun t => t ∈ tickers ∧ valid t = true) added) ∧
     Forall (fun t => t ∈ tickers ∧ valid t = false ∧ t ∉ watchlist mw')
            (HomePage.invalid_of uc valid mw text) ∧
     files mw' = <[watchlist_path (Auth.current_user (auth mw))
                   := watchlist mw']> (files mw)) ∧
  (forall (uc : N -> list N) (valid : list N -> bool) (mw : main_window),
     valid (PyStr.lit "AAPL") = true -> valid (PyStr.lit "MSFT") = true ->
     watchlist mw = [] ->
     watchlist (HomePage.add_to_watchlist_from_entry uc valid mw
                  (PyStr.lit "aapl, msft"))
       = [PyStr.lit "AAPL"; PyStr.lit "MSFT"] ∧
     HomePage.invalid_of uc valid mw (PyStr.lit "aapl, msft") = []).
Proof.
  split.
  - intros uc valid mw text Hlen tickers run mw'.
    assert (Hw : watchlist mw' = fst (run tickers)).
    { subst mw'. rewrite watchlist_add.
      apply Nat.ltb_ge in Hlen. by rewrite Hlen. }
    pose proof (add_loop_global valid (watchlist mw) tickers) as Hg.
    simpl in Hg. fold (run tickers) in Hg.
    destruct Hg as [(added & Hadd & Hadded) Hinv].
    split; [apply parse_tickers_entries |].
    split.
    { intros t Ht. destruct (parse_tickers_normal _ _ _ Ht) as (? & Hl).
      split; [done |]. split; [intros ->; simpl in Hl; lia |].
      split; [by apply (parse_tickers_no_comma uc text) |].
      intros Hfree. by apply (parse_tickers_no_lower uc text). }
    split.
    { intros pre t post E. subst run. simpl.
      rewrite add_loop_snoc.
      destruct (HomePage.add_loop valid pre (watchlist mw, []))
        as [wl inv] eqn:Epre.
      split.
      - apply add_step_cases.
        apply (parse_tickers_normal uc text). fold tickers. rewrite E.
        apply elem_of_app. right. apply elem_of_cons. by left.
      - rewrite E. rewrite (add_loop_app valid pre (t :: post)), Epre.
        reflexivity. }
    split; [exact Hw |].
    split; [reflexivity |].
    split.
    { subst mw'. unfold HomePage.add_to_watchlist_from_entry.
      apply Nat.ltb_ge in Hlen. rewrite Hlen.
      unfold HomePage.invalid_of.
      by destruct (HomePage.add_loop valid (HomePage.parse_tickers uc text)
                     (watchlist mw, [])). }
    split; [exists added; by rewrite Hw |].
    split.
    { unfold HomePage.invalid_of. fold tickers. fold (run tickers).
      eapply Forall_impl; [exact Hinv |]. simpl.
      intros t (Ht & Hv & Hn). repeat split; [done.. |].
      rewrite Hw, Hadd. intros [Hin | Hin]%elem_of_app; [done |].
      rewrite Forall_forall in Hadded. destruct (Hadded t Hin) as [_ Hv'].
      congruence. }
    subst mw'. unfold HomePage.add_to_watchlist_from_entry.
    apply Nat.ltb_ge in Hlen. rewrite Hlen.
    by destruct (HomePage.add_loop valid (HomePage.parse_tickers uc text)
                   (watchlist mw, [])).
  - intros uc valid mw Ha Hm Hwl.
    unfold HomePage.invalid_of. rewrite watchlist_add, Hwl.
    change (HomePage.parse_tickers uc (PyStr.lit "aapl, msft"))
      with [PyStr.lit "AAPL"; PyStr.lit "MSFT"].
    unfold HomePage.add_loop, HomePage.add_step.
    cbn [fold_left List.length Nat.ltb Nat.leb andb negb].
    change (HomePage.mem (PyStr.lit "AAPL") []) with false.
    cbn [fold_left List.length Nat.ltb Nat.leb andb negb].
    rewrite Ha.
    change (HomePage.mem (PyStr.lit "MSFT") ([] ++ [PyStr.lit "AAPL"]))
      with false.
    cbn [fold_left List.length Nat.ltb Nat.leb andb negb app].
    rewrite Hm. done.
Qed.

Lemma add_tickers_rule_witness :
  let valid := fun t => negb (bool_decide (t = PyStr.lit "ZZZZ")) in
  let mw := set_watchlist (new_main_window ∅ ∅) [PyStr.lit "MSFT"] in
  let text := (PyStr.lit "aapl, msft ,zzzz,, caf" ++ [233%N])%list in
  let mw' := HomePage.add_to_watchlist_from_entry uc_sample valid mw text in
  HomePage.parse_tickers uc_sample text
    = List.filter PyStr.truthy (spec_entries uc_sample text) ∧
  HomePage.parse_tickers uc_sample text
    = [PyStr.lit "AAPL"; PyStr.lit "MSFT"; PyStr.lit "ZZZZ";
       (PyStr.lit "CAF" ++ [201%N])%list] ∧
  Forall (fun c => PyStr.is_lower c = false)
         (PyStr.lit "CAF" ++ [201%N])%list ∧
  watchlist mw'
    = [PyStr.lit "MSFT"; PyStr.lit "AAPL";
       (PyStr.lit "CAF" ++ [201%N])%list] ∧
  HomePage.invalid_of uc_sample valid mw text = [PyStr.lit "ZZZZ"] ∧
  home_error_label mw' = PyStr.lit "Invalid ticker(s): ZZZZ, try again.".
Proof.
  intros valid mw text mw'.
  destruct add_tickers_rule as [Hrule _].
  destruct (Hrule uc_sample valid mw text)
    as (He & Hn & _ & Hw & Hi & Hl & _).
  - apply Nat.leb_le. reflexivity.
  - split; [apply He, uc_sample_comma_free |].
    split; [reflexivity |].
    split.
    { apply (Hn (PyStr.lit "CAF" ++ [201%N])%list);
        [| apply uc_sample_lower_free].
      apply list_elem_of_In. vm_compute. tauto. }
    subst mw'. rewrite Hw, Hl, Hi. repeat split; reflexivity.
Defined.

(** ** Float columns and rolling windows *)

Section SeriesFacts.

Import Series.

Lemma map_fmap {A B} (f : A -> B) (l : list A) : List.map f l = f <$> l.
Proof. reflexivity. Qed.

Lemma Forall_list_filter {A} (P : A -> Prop) (f : A -> bool) (l : list A) :
  Forall P l -> Forall P (List.filter f l).
Proof.
  induction 1 as [|x l Hx Hl IH]; simpl; [constructor |].
  destruct (f x); [by constructor | done].
Qed.

Lemma Forall_removelast {A} (P : A -> Prop) (l : list A) :
  Forall P l -> Forall P (removelast l).
Proof.
  induction 1 as [|x l Hx Hl IH]; simpl; [constructor |].
  destruct l; [constructor | by constructor].
Qed.

Lemma Forall_window_at (P : fval -> Prop) w i xs :
  Forall P xs -> Forall P (window_at w i xs).
Proof. intros H. unfold window_at. by apply Forall_drop, Forall_take. Qed.

Lemma length_rolling_mean w minp xs :
  List.length (rolling_mean w minp xs) = List.length xs.
Proof. unfold rolling_mean. by rewrite List.length_map, length_seq. Qed.

Lemma lookup_rolling_mean w minp xs i v :
  rolling_mean w minp xs !! i = Some v <->
  (i < List.length xs)%nat ∧ v = window_mean minp (window_at w i xs).
Proof.
  unfold rolling_mean. rewrite map_fmap, list_lookup_fmap_Some.
  split.
  - intros (j & -> & Hj). apply lookup_seq in Hj as [-> ?]. done.
  - intros [Hi ->]. exists i. split; [done |]. by apply lookup_seq.
Qed.

Lemma length_removelast_cons {A} (x : A) (l : list A) :
  List.length (removelast (x :: l)) = List.length l.
Proof.
  revert x. induction l as [|y l IH]; intros x; [done |].
  change (removelast (x :: y :: l)) with (x :: removelast (y :: l)).
  cbn [List.length]. f_equal. apply IH.
Qed.

Lemma length_shift xs : List.length (shift xs) = List.length xs.
Proof.
  destruct xs as [|x xs]; [done |].
  unfold shift. cbn [List.length]. f_equal. apply length_removelast_cons.
Qed.

Lemma length_diff xs : List.length (diff xs) = List.length xs.
Proof. unfold diff. rewrite length_zip_with, length_shift. lia. Qed.

Lemma Forall_of_prices (xs : list Q) : Forall F.is_finite (of_prices xs).
Proof. unfold of_prices. induction xs; simpl; by constructor. Qed.

Lemma Forall_shift xs : Forall F.is_finite xs -> Forall fin_or_nan (shift xs).
Proof.
  intros H. destruct xs as [|x xs]; [constructor |].
  unfold shift. constructor; [done |].
  apply Forall_removelast. eapply Forall_impl; [exact H |].
  by intros [].
Qed.

Lemma Forall_zip_with_2 {A B C} (f : A -> B -> C)
    (P : A -> Prop) (R : B -> Prop) (S : C -> Prop) l k :
  (forall a b, P a -> R b -> S (f a b)) ->
  Forall P l -> Forall R k -> Forall S (zip_with f l k).
Proof.
  intros Hf Hl. revert k. induction Hl as [|a l Ha Hl IH]; intros k Hk.
  - constructor.
  - destruct Hk as [|b k Hb Hk]; simpl; [constructor |].
    constructor; [by apply Hf | by apply IH].
Qed.

Lemma Forall_diff xs : Forall F.is_finite xs -> Forall fin_or_nan (diff xs).
Proof.
  intros H. unfold diff.
  eapply Forall_zip_with_2; [| exact H | by apply Forall_shift].
  by intros [] [].
Qed.

Lemma ltb_true x y : F.ltb x y = true -> x < y.
Proof.
  unfold F.ltb. destruct (x ?= y) eqn:E; [done | | done].
  intros _. by apply Qlt_alt.
Qed.

Lemma ltb_false x y : F.ltb x y = false -> y <= x.
Proof.
  unfold F.ltb. destruct (x ?= y) eqn:E; [| done |]; intros _.
  - apply Qeq_alt in E. rewrite E. apply Qle_refl.
  - apply Qgt_alt in E. by apply Qlt_le_weak.
Qed.

Lemma sum_nonneg obs :
  Forall nonneg obs -> exists s, sum obs = Fin s ∧ 0 <= s.
Proof.
  induction 1 as [|x obs Hx _ (s & Hs & Hs0)].
  - exists 0. split; [done | apply Qle_refl].
  - change (sum (x :: obs)) with (F.add x (sum obs)). rewrite Hs.
    destruct x as [q| | |]; try done. simpl in Hx.
    exists (q + s). split; [done | lra].
Qed.

Lemma sum_finite obs :
  Forall F.is_finite obs -> exists s, sum obs = Fin s.
Proof.
  induction 1 as [|x obs Hx _ (s & Hs)]; [by exists 0 |].
  change (sum (x :: obs)) with (F.add x (sum obs)). rewrite Hs.
  destruct x as [q| | |]; try done. by exists (q + s).
Qed.

Lemma count_pos (n : nat) : (0 < n)%nat -> 0 < inject_Z (Z.of_nat n).
Proof.
  intros H. change 0 with (inject_Z 0). rewrite <- Zlt_Qlt. lia.
Qed.

Lemma div_by_count s n :
  (0 < n)%nat ->
  F.div (Fin s) (Fin (inject_Z (Z.of_nat n)))
    = Fin (s / inject_Z (Z.of_nat n)).
Proof.
  intros H. apply count_pos in H. simpl.
  apply Qgt_alt in H. by rewrite H.
Qed.

Lemma obs_finite win :
  Forall fin_or_nan win -> Forall F.is_finite (List.filter F.is_obs win).
Proof.
  induction 1 as [|x l Hx Hl IH]; simpl; [constructor |].
  destruct x; simpl; try done; by constructor.
Qed.

Lemma obs_nonneg win :
  Forall nonneg_or_nan win -> Forall nonneg (List.filter F.is_obs win).
Proof.
  induction 1 as [|x l Hx Hl IH]; simpl; [constructor |].
  destruct x; simpl; try done; by constructor.
Qed.

Lemma window_mean_nonneg minp win :
  Forall nonneg_or_nan win -> nonneg_or_nan (window_mean minp win).
Proof.
  intros H. unfold window_mean.
  destruct ((minp <=? _)%nat && (0 <? _)%nat) eqn:E; [| done].
  apply andb_true_iff in E as [_ Hn%Nat.ltb_lt].
  destruct (sum_nonneg _ (obs_nonneg _ H)) as (s & -> & Hs).
  rewrite div_by_count by done. simpl.
  apply Qle_shift_div_l; [by apply count_pos | lra].
Qed.

Lemma window_mean_fin_or_nan minp win :
  Forall fin_or_nan win -> fin_or_nan (window_mean minp win).
Proof.
  intros H. unfold window_mean.
  destruct ((minp <=? _)%nat && (0 <? _)%nat) eqn:E; [| done].
  apply andb_true_iff in E as [_ Hn%Nat.ltb_lt].
  destruct (sum_finite _ (obs_finite _ H)) as (s & ->).
  by rewrite div_by_count.
Qed.

Lemma rolling_mean_nonneg w minp xs :
  Forall nonneg_or_nan xs -> Forall nonneg_or_nan (rolling_mean w minp xs).
Proof.
  intros H. apply Forall_lookup. intros i v [_ ->]%lookup_rolling_mean.
  by apply window_mean_nonneg, Forall_window_at.
Qed.

Lemma rolling_mean_fin_or_nan w minp xs :
  Forall fin_or_nan xs -> Forall fin_or_nan (rolling_mean w minp xs).
Proof.
  intros H. apply Forall_lookup. intros i v [_ ->]%lookup_rolling_mean.
  by apply window_mean_fin_or_nan, Forall_window_at.
Qed.

(** The window of size one at an index inside the column. *)
Lemma window_at_one i xs x : xs !! i = Some x -> window_at 1 i xs = [x].
Proof.
  intros H. unfold window_at.
  replace (i + 1 - 1)%nat with i by lia. replace (i + 1)%nat with (S i) by lia.
  rewrite (take_S_r _ _ _ H). apply drop_app_length'.
  rewrite length_take. apply lookup_lt_Some in H. lia.
Qed.

End SeriesFacts.

(** ** SMA and EMA *)

Section MovingAverageFacts.

Import Series StockDetailsPage.

Lemma window_mean_single q : F.eq (window_mean 1 [Fin q]) (Fin q).
Proof.
  unfold window_mean. cbn [List.filter F.is_obs List.length].
  change ((1 <=? 1)%nat && (0 <? 1)%nat) with true. cbv iota.
  unfold sum. cbn [foldr F.add].
  rewrite div_by_count by lia. cbn [F.eq].
  change (inject_Z (Z.of_nat 1)) with 1. field.
Qed.

Lemma lookup_of_prices xs i v :
  of_prices xs !! i = Some v -> exists q, v = Fin q ∧ xs !! i = Some q.
Proof.
  unfold of_prices. rewrite map_fmap. apply list_lookup_fmap_Some_1.
Qed.

Lemma ewm_from_alpha_one alpha prev xs :
  alpha == 1 -> Forall2 Qeq (ewm_from alpha prev xs) xs.
Proof.
  intros Ha. revert prev. induction xs as [|x xs IH]; intros prev; simpl.
  - constructor.
  - constructor; [| apply IH]. rewrite Ha. ring.
Qed.

Lemma ewm_mean_span_one xs : Forall2 Qeq (ewm_mean 1 xs) xs.
Proof.
  destruct xs as [|x xs]; simpl; [constructor |].
  constructor; [reflexivity |]. by apply ewm_from_alpha_one.
Qed.

End MovingAverageFacts.

(** C8. With window 1 the SMA column and with span 1 the EMA column repeat
    the close prices, cell by cell. *)
Theorem sma_ema_period_one_identity (data : list bar) :
  Forall2 F.eq (StockDetailsPage.sma_column data 1)
               (StockDetailsPage.col Close data) ∧
  Forall2 F.eq (StockDetailsPage.ema_column data 1)
               (StockDetailsPage.col Close data).
Proof.
  split.
  - apply Forall2_same_length_lookup_2.
    + unfold StockDetailsPage.sma_column. simpl.
      by rewrite length_rolling_mean.
    + intros i x y Hx Hy. unfold StockDetailsPage.sma_column in Hx.
      simpl in Hx. apply lookup_rolling_mean in Hx as [_ ->].
      rewrite (window_at_one _ _ _ Hy).
      apply lookup_of_prices in Hy as (q & -> & _).
      apply window_mean_single.
  - unfold StockDetailsPage.ema_column, StockDetailsPage.col. simpl.
    unfold Series.of_prices. rewrite !map_fmap.
    apply Forall2_fmap. eapply Forall2_impl; [apply ewm_mean_span_one |].
    by intros x y H.
Qed.

(** ** RSI *)

Section RsiFacts.

Import Series StockDetailsPage.

Lemma nonneg_weaken xs : Forall nonneg xs -> Forall nonneg_or_nan xs.
Proof. intros H. eapply Forall_impl; [exact H |]. by intros []. Qed.

Lemma rsi_delta_fin_or_nan series : Forall fin_or_nan (rsi_delta series).
Proof. apply Forall_diff, Forall_of_prices. Qed.

Lemma rsi_gain_nonneg series : Forall nonneg (rsi_gain series).
Proof.
  unfold rsi_gain, series_where. rewrite map_fmap. apply Forall_fmap.
  eapply Forall_impl; [apply rsi_delta_fin_or_nan |].
  intros [q| | |] Hx; try done. simpl.
  destruct (F.ltb 0 q) eqn:E; simpl; [| apply Qle_refl].
  by apply Qlt_le_weak, ltb_true.
Qed.

Lemma rsi_loss_nonneg series : Forall nonneg (rsi_loss series).
Proof.
  unfold rsi_loss, series_where. rewrite !map_fmap.
  apply Forall_fmap, Forall_fmap.
  eapply Forall_impl; [apply rsi_delta_fin_or_nan |].
  intros [q| | |] Hx; try done. simpl.
  destruct (F.ltb q 0) eqn:E; simpl; [| lra].
  apply ltb_true in E. lra.
Qed.

Lemma rsi_avg_gain_range series period :
  Forall nonneg_or_nan (rsi_avg_gain series period).
Proof. apply rolling_mean_nonneg, nonneg_weaken, rsi_gain_nonneg. Qed.

Lemma rsi_avg_loss_range series period :
  Forall nonneg_or_nan (rsi_avg_loss series period).
Proof. apply rolling_mean_nonneg, nonneg_weaken, rsi_loss_nonneg. Qed.

Lemma div_rs_range g l :
  nonneg_or_nan g -> nonneg_or_nan l -> rs_range (F.div g l).
Proof.
  destruct g as [g| | |], l as [l| | |]; try done. simpl. intros Hg Hl.
  destruct (l ?= 0) eqn:El.
  - destruct (g ?= 0) eqn:Eg; try done.
    apply Qlt_alt in Eg. simpl. lra.
  - apply Qlt_alt in El. lra.
  - apply Qgt_alt in El. simpl. apply Qle_shift_div_l; lra.
Qed.

Lemma rsi_rs_range series period : Forall rs_range (rsi_rs series period).
Proof.
  unfold rsi_rs.
  eapply Forall_zip_with_2;
    [apply div_rs_range | apply rsi_avg_gain_range | apply rsi_avg_loss_range].
Qed.

Lemma rsi_of_rs_inf q : rsi_of_rs PInf = Fin q -> q == 100.
Proof. unfold rsi_of_rs. simpl. intros [= <-]. lra. Qed.

Lemma rsi_of_rs_neg_inf : F.eq (rsi_of_rs NInf) (Fin 100).
Proof. reflexivity. Qed.

Lemma rsi_of_rs_range r : rs_range r -> rsi_range (rsi_of_rs r).
Proof.
  destruct r as [x| | |]; [| by vm_compute | done | done].
  unfold rsi_of_rs. simpl. intros Hx.
  destruct (1 + x ?= 0) eqn:E.
  - apply Qeq_alt in E. lra.
  - apply Qlt_alt in E. lra.
  - simpl.
    assert (0 <= 100 / (1 + x)) by (apply Qle_shift_div_l; lra).
    assert (100 / (1 + x) <= 100) by (apply Qle_shift_div_r; lra).
    lra.
Qed.

Lemma calculate_rsi_range series period :
  Forall rsi_range (calculate_rsi series period).
Proof.
  unfold calculate_rsi. rewrite map_fmap. apply Forall_fmap.
  eapply Forall_impl; [apply rsi_rs_range |]. apply rsi_of_rs_range.
Qed.

Lemma lookup_calculate_rsi series period i g l :
  rsi_avg_gain series period !! i = Some g ->
  rsi_avg_loss series period !! i = Some l ->
  calculate_rsi series period !! i = Some (rsi_of_rs (F.div g l)).
Proof.
  intros Hg Hl. unfold calculate_rsi, rsi_rs.
  rewrite map_fmap, list_lookup_fmap, lookup_zip_with, Hg, Hl. done.
Qed.

End RsiFacts.

(** C5.  Every RSI value that is not NaN is a number between 0 and 100.
    Where the average loss is 0 the RSI is 100 when the average gain is
    positive, and NaN when the average gain is not (the division 0/0): the
    code has no clamp of its own. *)
Theorem rsi_bounded_zero_loss :
  (forall (series : list Q) (period i : nat) (v : fval),
     StockDetailsPage.calculate_rsi series period !! i = Some v ->
     v ≠ NaN ->
     exists q, v = Fin q ∧ 0 <= q <= 100) ∧
  (forall (series : list Q) (period i : nat) (g : fval) (l : Q),
     StockDetailsPage.rsi_avg_gain series period !! i = Some g ->
     StockDetailsPage.rsi_avg_loss series period !! i = Some (Fin l) ->
     l == 0 ->
     (F.gt0 g = true ->
      exists q, StockDetailsPage.calculate_rsi series period !! i
                  = Some (Fin q) ∧ q == 100) ∧
     (F.gt0 g = false ->
      StockDetailsPage.calculate_rsi series period !! i = Some NaN)).
Proof.
  split.
  - intros series period i v Hv Hnan.
    pose proof (calculate_rsi_range series period) as H.
    rewrite Forall_lookup in H. specialize (H i v Hv).
    destruct v as [q| | |]; try done. by exists q.
  - intros series period i g l Hg Hl Hz.
    rewrite (lookup_calculate_rsi _ _ _ _ _ Hg Hl).
    pose proof (rsi_avg_gain_range series period) as H.
    rewrite Forall_lookup in H. specialize (H i g Hg).
    apply Qeq_alt in Hz.
    destruct g as [gq| | |]; [| done | done | by split].
    simpl. rewrite Hz. split; intros E.
    + apply ltb_true, Qgt_alt in E. rewrite E.
      eexists. split; [reflexivity |]. by apply rsi_of_rs_inf.
    + apply ltb_false in E. simpl in H.
      assert (Hq : gq == 0) by lra. apply Qeq_alt in Hq. by rewrite Hq.
Qed.

Lemma rsi_bounded_zero_loss_witness :
  (exists q, StockDetailsPage.calculate_rsi [1; 2; 3; 2] 2 !! 3%nat
               = Some (Fin q) ∧ 0 <= q <= 100) ∧
  (exists q, StockDetailsPage.calculate_rsi [1; 2; 3; 2] 2 !! 2%nat
               = Some (Fin q) ∧ q == 100).
Proof.
  destruct rsi_bounded_zero_loss as [Hrange Hzero]. split.
  - destruct (Hrange [1; 2; 3; 2] 2%nat 3%nat (Fin (200 # 4)))
      as (q & [= <-] & Hq); [reflexivity | discriminate |].
    eexists. split; [reflexivity | exact Hq].
  - destruct (Hzero [1; 2; 3; 2] 2%nat 2%nat (Fin (2 # 2)) (0 # 2))
      as [Hpos _]; [reflexivity | reflexivity | reflexivity |].
    apply Hpos. reflexivity.
Defined.

(** C5, counterexample: on fourteen equal prices the average loss of the
    14-period window at the last index is 0, and the RSI there is NaN, not
    100. *)
Lemma rsi_flat_prices_counterexample :
  (exists l, StockDetailsPage.rsi_avg_loss flat_prices 14 !! 13%nat
               = Some (Fin l) ∧ l == 0) ∧
  StockDetailsPage.calculate_rsi flat_prices 14 !! 13%nat = Some NaN.
Proof.
  split; [| vm_compute; reflexivity].
  eexists. split; [vm_compute; reflexivity | reflexivity].
Qed.

(** ** ADX *)

Section AdxFacts.

Import Series StockDetailsPage.

Lemma clean_cell_finite x : F.is_finite (F.fillna 0 (F.replace_inf x)).
Proof. by destruct x. Qed.

Lemma clean_finite xs : Forall F.is_finite (clean xs).
Proof.
  unfold clean. rewrite map_fmap. apply Forall_fmap, Forall_forall.
  intros x _. apply clean_cell_finite.
Qed.

Lemma length_clean xs : List.length (clean xs) = List.length xs.
Proof. unfold clean. apply List.length_map. Qed.

Lemma lookup_clean xs i x :
  xs !! i = Some x -> clean xs !! i = Some (F.fillna 0 (F.replace_inf x)).
Proof.
  intros H. unfold clean. rewrite map_fmap, list_lookup_fmap, H. done.
Qed.

Lemma length_col f data : List.length (col f data) = List.length data.
Proof. unfold col, of_prices. by rewrite !List.length_map. Qed.

Lemma length_adx_tr data : List.length (adx_tr data) = List.length data.
Proof.
  unfold adx_tr.
  rewrite !length_zip_with, !List.length_map, !length_zip_with,
    !length_shift, !length_col. lia.
Qed.

Lemma length_adx_atr data period :
  List.length (adx_atr data period) = List.length data.
Proof. unfold adx_atr. by rewrite length_rolling_mean, length_adx_tr. Qed.

Lemma length_adx_plus_di_raw data period :
  List.length (adx_plus_di_raw data period) = List.length data.
Proof.
  unfold adx_plus_di_raw, adx_smoothed_plus_dm, adx_plus_dm.
  rewrite length_zip_with, length_rolling_mean, List.length_map,
    length_diff, length_col, length_adx_atr. lia.
Qed.

Lemma length_adx_minus_di_raw data period :
  List.length (adx_minus_di_raw data period) = List.length data.
Proof.
  unfold adx_minus_di_raw, adx_smoothed_minus_dm, adx_minus_dm.
  rewrite length_zip_with, length_rolling_mean, !List.length_map,
    length_diff, length_col, length_adx_atr. lia.
Qed.

Lemma length_adx_dx data period :
  List.length (adx_dx data period) = List.length data.
Proof.
  unfold adx_dx.
  rewrite length_zip_with, length_adx_plus_di_raw, length_adx_minus_di_raw.
  lia.
Qed.

Lemma length_adx_raw data period :
  List.length (adx_raw data period) = List.length data.
Proof. unfold adx_raw. by rewrite length_rolling_mean, length_adx_dx. Qed.

(** A directional indicator over a zero ATR is cleaned to 0. *)
Lemma di_of_zero_atr s a :
  a == 0 -> F.fillna 0 (F.replace_inf (di_of s (Fin a))) = Fin 0.
Proof.
  intros Ha%Qeq_alt. unfold di_of.
  destruct s as [q| | |]; simpl; unfold F.ltb; rewrite ?Ha; try done.
  by destruct (100 * q ?= 0).
Qed.

(** Over an ATR that is a number other than 0 it is the quotient. *)
Lemma di_of_nonzero_atr s a :
  ~ a == 0 ->
  F.fillna 0 (F.replace_inf (di_of (Fin s) (Fin a))) = Fin (100 * s / a).
Proof.
  intros Ha. unfold di_of. simpl.
  destruct (a ?= 0) eqn:E; [| done..].
  apply Qeq_alt in E. contradiction.
Qed.

(** A window without any defined cell has no mean. *)
Lemma window_mean_all_nan minp win :
  Forall (eq NaN) win -> window_mean minp win = NaN.
Proof.
  intros H. unfold window_mean.
  replace (List.filter F.is_obs win) with (@nil fval).
  - simpl. by rewrite andb_false_r.
  - induction H as [|x l <- _ IH]; simpl; done.
Qed.

End AdxFacts.

Section AdxNoInfinity.

Import Series StockDetailsPage.

Lemma Forall_col f data : Forall F.is_finite (col f data).
Proof. apply Forall_of_prices. Qed.

Lemma adx_tr_fin_or_nan data : Forall fin_or_nan (adx_tr data).
Proof.
  unfold adx_tr.
  apply (Forall_zip_with_2 _
           (fun ab => F.is_finite (fst ab) ∧ fin_or_nan (snd ab)) fin_or_nan).
  - intros [[a| | |] [b| | |]] [c| | |] [Ha Hb] Hc; done.
  - apply (Forall_zip_with_2 _ F.is_finite fin_or_nan); [done | |].
    + apply (Forall_zip_with_2 _ F.is_finite F.is_finite);
        [by intros [] [] | apply Forall_col..].
    + rewrite map_fmap. apply Forall_fmap.
      apply (Forall_zip_with_2 _ F.is_finite fin_or_nan);
        [by intros [] [] | apply Forall_col | apply Forall_shift, Forall_col].
  - rewrite map_fmap. apply Forall_fmap.
    apply (Forall_zip_with_2 _ F.is_finite fin_or_nan);
      [by intros [] [] | apply Forall_col | apply Forall_shift, Forall_col].
Qed.

Lemma adx_plus_dm_nonneg data : Forall nonneg_or_nan (adx_plus_dm data).
Proof.
  unfold adx_plus_dm. rewrite map_fmap. apply Forall_fmap.
  eapply Forall_impl; [apply Forall_diff, Forall_col |].
  intros [q| | |] Hq; try done. simpl. apply Q.le_max_r.
Qed.

Lemma adx_minus_dm_nonneg data : Forall nonneg_or_nan (adx_minus_dm data).
Proof.
  unfold adx_minus_dm. rewrite !map_fmap. apply Forall_fmap, Forall_fmap.
  eapply Forall_impl; [apply Forall_diff, Forall_col |].
  intros [q| | |] Hq; try done. simpl. apply Qabs_nonneg.
Qed.

Lemma di_sum_zero s t a :
  0 <= s -> 0 <= t -> ~ a == 0 ->
  100 * s / a + 100 * t / a == 0 ->
  100 * s / a + - (100 * t / a) == 0.
Proof.
  intros Hs Ht Ha H.
  assert (E : 100 * (s + t) == (100 * s / a + 100 * t / a) * a)
    by (field; exact Ha).
  rewrite H in E.
  assert (E' : 100 * (s + t) == 0) by (rewrite E; ring).
  assert (Hs0 : s == 0) by lra. assert (Ht0 : t == 0) by lra.
  rewrite Hs0, Ht0. field. exact Ha.
Qed.

(** DX is never infinite: the rolling mean that makes ADX only meets
    numbers and NaN. *)
Lemma dx_of_di_fin_or_nan sp sm atr :
  nonneg_or_nan sp -> nonneg_or_nan sm -> fin_or_nan atr ->
  fin_or_nan (dx_of (di_of sp atr) (di_of sm atr)).
Proof.
  destruct sp as [s| | |], sm as [t| | |], atr as [a| | |];
    intros Hs Ht _; try done; unfold dx_of, di_of; simpl;
    [| by destruct (a ?= 0), (100 * s ?= 0)].
  simpl in Hs, Ht. destruct (a ?= 0) eqn:Ea.
  - by destruct (100 * s ?= 0), (100 * t ?= 0).
  - apply Qlt_alt in Ea.
    assert (Ha : ~ a == 0) by lra.
    simpl. destruct (100 * s / a + 100 * t / a ?= 0) eqn:E; [| done..].
    apply Qeq_alt in E. apply (di_sum_zero s t a Hs Ht Ha) in E.
    apply Qeq_alt in E. by rewrite E.
  - apply Qgt_alt in Ea.
    assert (Ha : ~ a == 0) by lra.
    simpl. destruct (100 * s / a + 100 * t / a ?= 0) eqn:E; [| done..].
    apply Qeq_alt in E. apply (di_sum_zero s t a Hs Ht Ha) in E.
    apply Qeq_alt in E. by rewrite E.
Qed.

Lemma adx_dx_fin_or_nan data period : Forall fin_or_nan (adx_dx data period).
Proof.
  apply Forall_lookup. intros i d.
  unfold adx_dx, adx_plus_di_raw, adx_minus_di_raw.
  intros (p & m & -> & Hp & Hm)%lookup_zip_with_Some.
  apply lookup_zip_with_Some in Hp as (sp & atr & -> & Hsp & Hatr).
  apply lookup_zip_with_Some in Hm as (sm & atr' & -> & Hsm & Hatr').
  assert (atr' = atr) as -> by congruence.
  apply dx_of_di_fin_or_nan.
  - eapply (proj1 (Forall_lookup _ _)); [| exact Hsp].
    apply rolling_mean_nonneg, adx_plus_dm_nonneg.
  - eapply (proj1 (Forall_lookup _ _)); [| exact Hsm].
    apply rolling_mean_nonneg, adx_minus_dm_nonneg.
  - eapply (proj1 (Forall_lookup _ _)); [| exact Hatr].
    apply rolling_mean_fin_or_nan, adx_tr_fin_or_nan.
Qed.

(** Where no cell is infinite, the observations of a window are its
    numbers, and the mean that needs one observation is their sum over
    their count. *)
Lemma obs_defined_values win :
  Forall fin_or_nan win ->
  List.filter F.is_obs win = List.map Fin (defined_values win).
Proof.
  induction 1 as [|x win Hx _ IH]; [done |].
  destruct x as [q| | |]; try done; simpl; by rewrite IH.
Qed.

Lemma sum_defined_values vals : sum (List.map Fin vals) = Fin (Qsum vals).
Proof.
  induction vals as [|v vals IH]; [done |].
  change (sum (List.map Fin (v :: vals)))
    with (F.add (Fin v) (sum (List.map Fin vals))).
  by rewrite IH.
Qed.

Lemma window_mean_defined_values win :
  Forall fin_or_nan win ->
  window_mean 1 win =
    match defined_values win with
    | [] => NaN
    | vals => Fin (Qsum vals / inject_Z (Z.of_nat (List.length vals)))
    end.
Proof.
  intros H. unfold window_mean.
  rewrite (obs_defined_values win H), List.length_map.
  destruct (defined_values win) as [|v vals]; [done |].
  rewrite sum_defined_values.
  change ((1 <=? List.length (v :: vals))%nat
          && (0 <? List.length (v :: vals))%nat) with true.
  cbv iota. apply div_by_count. simpl. lia.
Qed.

End AdxNoInfinity.

(** C6, as amended.  For a period of at least 1 [calculate_adx] returns
    three columns as long as the data, and every cell of ADX, +DI and -DI is
    a finite number.  Where ATR is 0, +DI and -DI are 0; where it is another
    number they are 100 times the smoothed movement over it.  A DX whose own
    division is degenerate is NaN, and it is left out of the ADX average:
    at every row ADX is the sum of the defined DX values of its window (the
    rows [i + 1 - period] to [i]) over their number, however few they are,
    and 0 where the window holds no defined DX. *)
Theorem adx_outputs_finite :
  (forall (data : list bar) (period : nat),
     (0 < period)%nat -> is_Some (StockDetailsPage.calculate_adx data period)) ∧
  (forall (data : list bar) (period : nat) (adx plus_di minus_di : list fval),
     StockDetailsPage.calculate_adx data period
       = Some (adx, plus_di, minus_di) ->
     (List.length adx = List.length data ∧
      List.length plus_di = List.length data ∧
      List.length minus_di = List.length data) ∧
     (Forall F.is_finite adx ∧
      Forall F.is_finite plus_di ∧
      Forall F.is_finite minus_di) ∧
     (forall (i : nat) (a : Q),
        StockDetailsPage.adx_atr data period !! i = Some (Fin a) ->
        a == 0 ->
        plus_di !! i = Some (Fin 0) ∧ minus_di !! i = Some (Fin 0)) ∧
     (forall i : nat,
        (i < List.length data)%nat ->
        Forall (eq NaN)
          (Series.window_at period i (StockDetailsPage.adx_dx data period)) ->
        adx !! i = Some (Fin 0)) ∧
     (forall i : nat,
        (i < List.length data)%nat ->
        let vals :=
          defined_values
            (drop (i + 1 - period)
               (take (i + 1) (StockDetailsPage.adx_dx data period))) in
        (vals = [] -> adx !! i = Some (Fin 0)) ∧
        (vals ≠ [] ->
         adx !! i
           = Some (Fin (Qsum vals
                        / inject_Z (Z.of_nat (List.length vals)))))) ∧
     (forall (i : nat) (p m : Q),
        StockDetailsPage.adx_plus_di_raw data period !! i = Some (Fin p) ->
        StockDetailsPage.adx_minus_di_raw data period !! i = Some (Fin m) ->
        p + m == 0 ->
        StockDetailsPage.adx_dx data period !! i = Some NaN) ∧
     (forall (i : nat) (sp sm a : Q),
        StockDetailsPage.adx_smoothed_plus_dm data period !! i
          = Some (Fin sp) ->
        StockDetailsPage.adx_smoothed_minus_dm data period !! i
          = Some (Fin sm) ->
        StockDetailsPage.adx_atr data period !! i = Some (Fin a) ->
        ~ a == 0 ->
        plus_di !! i = Some (Fin (100 * sp / a)) ∧
        minus_di !! i = Some (Fin (100 * sm / a)))).
Proof.
  split.
  - intros data period Hp. unfold StockDetailsPage.calculate_adx.
    destruct period; [lia | by eexists].
  - intros data period adx plus_di minus_di.
    unfold StockDetailsPage.calculate_adx.
    destruct (period =? 0)%nat; [done |]. intros [= <- <- <-].
    split; [| split; [| split; [| split; [| split; [| split]]]]].
    + by rewrite !length_clean, length_adx_raw, length_adx_plus_di_raw,
        length_adx_minus_di_raw.
    + repeat split; apply clean_finite.
    + intros i a Hatr Ha.
      assert (Hi : (i < List.length data)%nat).
      { apply lookup_lt_Some in Hatr. by rewrite length_adx_atr in Hatr. }
      split.
      * destruct (lookup_lt_is_Some_2
                    (StockDetailsPage.adx_smoothed_plus_dm data period) i)
          as [s Hs].
        { unfold StockDetailsPage.adx_smoothed_plus_dm,
            StockDetailsPage.adx_plus_dm.
          by rewrite length_rolling_mean, List.length_map, length_diff,
            length_col. }
        erewrite lookup_clean.
        2:{ unfold StockDetailsPage.adx_plus_di_raw.
            rewrite lookup_zip_with, Hs, Hatr. reflexivity. }
        by rewrite di_of_zero_atr.
      * destruct (lookup_lt_is_Some_2
                    (StockDetailsPage.adx_smoothed_minus_dm data period) i)
          as [s Hs].
        { unfold StockDetailsPage.adx_smoothed_minus_dm,
            StockDetailsPage.adx_minus_dm.
          by rewrite length_rolling_mean, !List.length_map, length_diff,
            length_col. }
        erewrite lookup_clean.
        2:{ unfold StockDetailsPage.adx_minus_di_raw.
            rewrite lookup_zip_with, Hs, Hatr. reflexivity. }
        by rewrite di_of_zero_atr.
    + intros i Hi Hnan.
      erewrite lookup_clean.
      2:{ unfold StockDetailsPage.adx_raw. apply lookup_rolling_mean.
          split; [by rewrite length_adx_dx | reflexivity]. }
      by rewrite window_mean_all_nan.
    + intros i Hi.
      erewrite lookup_clean.
      2:{ unfold StockDetailsPage.adx_raw. apply lookup_rolling_mean.
          split; [by rewrite length_adx_dx | reflexivity]. }
      rewrite window_mean_defined_values
        by apply Forall_window_at, adx_dx_fin_or_nan.
      unfold Series.window_at.
      destruct (defined_values
                  (drop (i + 1 - period)
                     (take (i + 1) (StockDetailsPage.adx_dx data period))));
        split; intros Hv; done.
    + intros i p m Hp Hm Hz.
      unfold StockDetailsPage.adx_dx. rewrite lookup_zip_with, Hp, Hm.
      simpl. f_equal. unfold StockDetailsPage.dx_of. simpl.
      apply Qeq_alt in Hz. rewrite Hz.
      pose proof (adx_dx_fin_or_nan data period) as Hdx.
      rewrite Forall_lookup in Hdx. specialize (Hdx i).
      unfold StockDetailsPage.adx_dx in Hdx.
      rewrite lookup_zip_with, Hp, Hm in Hdx. simpl in Hdx.
      specialize (Hdx _ eq_refl). unfold StockDetailsPage.dx_of in Hdx.
      simpl in Hdx. rewrite Hz in Hdx.
      by destruct (p + - m ?= 0).
    + intros i sp sm a Hsp Hsm Hatr Ha. split.
      * erewrite lookup_clean.
        2:{ unfold StockDetailsPage.adx_plus_di_raw.
            rewrite lookup_zip_with, Hsp, Hatr. reflexivity. }
        by rewrite di_of_nonzero_atr.
      * erewrite lookup_clean.
        2:{ unfold StockDetailsPage.adx_minus_di_raw.
            rewrite lookup_zip_with, Hsm, Hatr. reflexivity. }
        by rewrite di_of_nonzero_atr.
Qed.

Lemma adx_outputs_finite_witness :
  exists adx plus_di minus_di,
    StockDetailsPage.calculate_adx [ohlc 5 5 5; ohlc 5 5 5; ohlc 7 6 6] 2
      = Some (adx, plus_di, minus_di) ∧
    Forall F.is_finite adx ∧
    plus_di !! 1%nat = Some (Fin 0) ∧ minus_di !! 1%nat = Some (Fin 0) ∧
    adx !! 1%nat = Some (Fin 0) ∧
    StockDetailsPage.adx_dx [ohlc 5 5 5; ohlc 5 5 5; ohlc 7 6 6] 2 !! 1%nat
      = Some NaN ∧
    exists q, adx !! 2%nat = Some (Fin q) ∧ q == 100.
Proof.
  destruct adx_outputs_finite as [Htotal Hspec].
  destruct (Htotal [ohlc 5 5 5; ohlc 5 5 5; ohlc 7 6 6] 2%nat)
    as [[[adx plus_di] minus_di] E]; [lia |].
  exists adx, plus_di, minus_di.
  destruct (Hspec _ _ _ _ _ E)
    as (_ & (Hfin & _ & _) & Hatr & Hadx & Hmean & _).
  split; [exact E |]. split; [exact Hfin |].
  destruct (Hatr 1%nat (0 # 2)) as [Hp Hm]; [reflexivity | reflexivity |].
  split; [exact Hp |]. split; [exact Hm |].
  split; [apply Hadx; [simpl; lia |]; vm_compute; repeat constructor |].
  split; [vm_compute; reflexivity |].
  destruct (Hmean 2%nat) as [_ Hdef]; [simpl; lia |].
  eexists. split; [apply Hdef; vm_compute; discriminate |].
  vm_compute. reflexivity.
Defined.

(** C6, counterexample: after one rising bar and fifteen bars that repeat
    it, with period 14, both directional indicators are 0 at the last index,
    so the division that makes DX there is 0/0 -- and the ADX output at that
    index is 100, not 0. *)
Lemma adx_degenerate_dx_counterexample :
  exists adx plus_di minus_di p m q,
    StockDetailsPage.calculate_adx rise_then_flat 14
      = Some (adx, plus_di, minus_di) ∧
    StockDetailsPage.adx_plus_di_raw rise_then_flat 14 !! 15%nat
      = Some (Fin p) ∧
    StockDetailsPage.adx_minus_di_raw rise_then_flat 14 !! 15%nat
      = Some (Fin m) ∧
    p + m == 0 ∧
    StockDetailsPage.adx_dx rise_then_flat 14 !! 15%nat = Some NaN ∧
    adx !! 15%nat = Some (Fin q) ∧ q == 100.
Proof.
  eexists _, _, _, _, _, _.
  split; [vm_compute; reflexivity |].
  split; [vm_compute; reflexivity |].
  split; [vm_compute; reflexivity |].
  split; [reflexivity |].
  split; [vm_compute; reflexivity |].
  split; [vm_compute; reflexivity | reflexivity].
Qed.

(** * Further properties *)

(** ** Credential store: changing a password, and how calls compose *)

Section AuthMoreFacts.

Import Auth.

Lemma change_password_ok a username cur new r :
  users_file a !! username = Some r -> password r = cur ->
  change_password a username cur new =
    (true, save_users a (<[username := {| password := new |}]> (users_file a))).
Proof.
  intros Hu Hp. unfold change_password, load_users. rewrite Hu.
  by rewrite (proj2 (String.eqb_eq _ _) Hp).
Qed.

Lemma change_password_true_iff a username cur new :
  fst (change_password a username cur new) = true <->
  exists r, users_file a !! username = Some r ∧ password r = cur.
Proof.
  unfold change_password, load_users.
  destruct (users_file a !! username) as [r|] eqn:Hu; simpl.
  - destruct (String.eqb (password r) cur) eqn:Hp; simpl.
    + apply String.eqb_eq in Hp. split; [eauto | done].
    + apply String.eqb_neq in Hp. split; [done |].
      intros (r' & Hr' & Hpw). congruence.
  - split; [done |]. intros (r & Hr & _). done.
Qed.

Lemma change_password_false_state a username cur new :
  fst (change_password a username cur new) = false ->
  change_password a username cur new = (false, a).
Proof.
  unfold change_password, load_users.
  destruct (users_file a !! username) as [r|]; [| done].
  by destruct (String.eqb (password r) cur).
Qed.

Lemma login_users_file a username pw :
  users_file (snd (login a username pw)) = users_file a.
Proof.
  unfold login, load_users.
  destruct (users_file a !! username) as [r|]; [| done].
  by destruct (String.eqb (password r) pw).
Qed.

(** The outcome of [login] only depends on the record of the user. *)
Lemma login_outcome_lookup a a' username pw :
  users_file a' !! username = users_file a !! username ->
  fst (login a' username pw) = fst (login a username pw).
Proof.
  intros H. unfold login, load_users. rewrite H.
  destruct (users_file a !! username) as [r|]; [| done].
  by destruct (String.eqb (password r) pw).
Qed.

End AuthMoreFacts.

(** X1. [change_password] succeeds exactly when the user exists and the
    current password given equals the stored one.  A failed call changes
    nothing.  A successful call replaces the password of that user only:
    the other records, the set of user names and the logged-in user stay,
    and the store is written once. *)
Theorem change_password_effect (a : Auth.t) (username cur new : string) :
  let r := Auth.change_password a username cur new in
  (fst r = true <->
   exists rec, Auth.users_file a !! username = Some rec
               ∧ Auth.password rec = cur) ∧
  (fst r = false -> snd r = a) ∧
  (fst r = true ->
   Auth.users_file (snd r) !! username = Some {| Auth.password := new |} ∧
   (forall other, other ≠ username ->
      Auth.users_file (snd r) !! other = Auth.users_file a !! other) ∧
   dom (Auth.users_file (snd r)) = dom (Auth.users_file a) ∧
   Auth.users_writes (snd r) = S (Auth.users_writes a) ∧
   Auth.current_user (snd r) = Auth.current_user a).
Proof.
  intros r. subst r. split; [apply change_password_true_iff |].
  split.
  - intros H. by rewrite (change_password_false_state _ _ _ _ H).
  - intros H. apply change_password_true_iff in H as (rec & Hu & Hp).
    rewrite (change_password_ok _ _ _ new _ Hu Hp). simpl.
    split; [apply lookup_insert_eq |].
    split; [intros other Hne; by apply lookup_insert_ne |].
    split; [| done].
    rewrite dom_insert_L. apply subseteq_union_1_L, singleton_subseteq_l.
    by apply elem_of_dom_2 in Hu.
Qed.

Lemma change_password_effect_witness :
  let a := snd (Auth.register
                  (snd (Auth.register
                          {| Auth.users_file := ∅; Auth.users_writes := 0;
                             Auth.current_user := None |} "bob" "pw1"))
                  "amy" "pw9") in
  let r := Auth.change_password a "bob" "pw1" "pw2" in
  Auth.users_file (snd r) !! "bob"%string = Some {| Auth.password := "pw2" |} ∧
  Auth.users_file (snd r) !! "amy"%string = Some {| Auth.password := "pw9" |} ∧
  snd (Auth.change_password a "bob" "bad" "pw2") = a.
Proof.
  intros a r.
  destruct (change_password_effect a "bob" "pw1" "pw2") as (Hiff & _ & Hok).
  destruct (change_password_effect a "bob" "bad" "pw2") as (Hiff' & Hfail & _).
  fold r in Hiff, Hok.
  destruct Hok as (Hnew & Hother & _).
  { apply Hiff. eexists. split; [vm_compute; reflexivity | reflexivity]. }
  split; [exact Hnew |]. split.
  - rewrite Hother by discriminate. vm_compute. reflexivity.
  - apply Hfail. vm_compute. reflexivity.
Defined.

(** X2. After a successful [register] of a user, [login] of that user
    succeeds with exactly the registered password, and a successful login
    makes that user the current one; [register] itself logs nobody in. *)
Theorem register_then_login (a : Auth.t) (username pw : string) :
  fst (Auth.register a username pw) = true ->
  let a1 := snd (Auth.register a username pw) in
  (forall pw', fst (Auth.login a1 username pw') = true <-> pw' = pw) ∧
  Auth.current_user a1 = Auth.current_user a ∧
  Auth.current_user (snd (Auth.login a1 username pw)) = Some username.
Proof.
  intros Hreg a1. subst a1.
  destruct (Auth.users_file a !! username) as [r|] eqn:Hu.
  { rewrite (register_taken _ _ pw _ Hu) in Hreg. done. }
  rewrite (register_fresh _ _ pw Hu). simpl.
  assert (Hl : Auth.users_file
                 (Auth.save_users a
                    (<[username := {| Auth.password := pw |}]>
                       (Auth.users_file a))) !! username
               = Some {| Auth.password := pw |})
    by apply lookup_insert_eq.
  split; [| split; [done |]].
  - intros pw'. rewrite login_true_iff. split.
    + intros (r & Hr & <-). rewrite Hl in Hr. by injection Hr as <-.
    + intros ->. eexists. split; [exact Hl | done].
  - unfold Auth.login, Auth.load_users. rewrite Hl. simpl.
    by rewrite String.eqb_refl.
Qed.

Lemma register_then_login_witness :
  let a := {| Auth.users_file := ∅; Auth.users_writes := 0;
              Auth.current_user := None |} in
  let a1 := snd (Auth.register a "bob" "pw1") in
  fst (Auth.login a1 "bob" "pw1") = true ∧
  Auth.current_user (snd (Auth.login a1 "bob" "pw1")) = Some "bob"%string.
Proof.
  intros a a1.
  destruct (register_then_login a "bob" "pw1") as (Hiff & _ & Hcur);
    [vm_compute; reflexivity |].
  split; [by apply Hiff | exact Hcur].
Defined.

(** X3. After a successful [change_password], [login] of that user succeeds
    with exactly the new password: the old one no longer works unless it is
    the same string. *)
Theorem change_password_then_login (a : Auth.t) (username cur new : string) :
  fst (Auth.change_password a username cur new) = true ->
  forall pw,
    fst (Auth.login (snd (Auth.change_password a username cur new))
           username pw) = true
    <-> pw = new.
Proof.
  intros H pw. apply change_password_true_iff in H as (rec & Hu & Hp).
  rewrite (change_password_ok _ _ _ new _ Hu Hp). simpl.
  rewrite login_true_iff. simpl. rewrite lookup_insert_eq. split.
  - by intros (r & [= <-] & <-).
  - intros ->. by eexists.
Qed.

Lemma change_password_then_login_witness :
  let a := {| Auth.users_file := {[ "bob"%string := {| Auth.password := "pw1" |} ]};
              Auth.users_writes := 0; Auth.current_user := None |} in
  let a1 := snd (Auth.change_password a "bob" "pw1" "pw2") in
  fst (Auth.login a1 "bob" "pw2") = true ∧
  fst (Auth.login a1 "bob" "pw1") ≠ true.
Proof.
  intros a a1.
  assert (H := change_password_then_login a "bob" "pw1" "pw2" eq_refl).
  split.
  - by apply H.
  - intros Hold. apply (proj1 (H "pw1"%string)) in Hold. discriminate.
Defined.

(** X4. Registering a user or changing a user's password does not change
    whether any other user can log in, and [login] never changes the stored
    credentials. *)
Theorem other_users_unaffected (a : Auth.t) (username other : string) :
  other ≠ username ->
  forall pw cur new opw,
    fst (Auth.login (snd (Auth.register a username pw)) other opw)
      = fst (Auth.login a other opw) ∧
    fst (Auth.login (snd (Auth.change_password a username cur new)) other opw)
      = fst (Auth.login a other opw) ∧
    Auth.users_file (snd (Auth.login a username pw)) = Auth.users_file a.
Proof.
  intros Hne pw cur new opw. split; [| split].
  - apply login_outcome_lookup.
    destruct (Auth.users_file a !! username) as [r|] eqn:Hu.
    + by rewrite (register_taken _ _ pw _ Hu).
    + rewrite (register_fresh _ _ pw Hu). simpl. by apply lookup_insert_ne.
  - apply login_outcome_lookup.
    destruct (fst (Auth.change_password a username cur new)) eqn:E.
    + apply change_password_true_iff in E as (rec & Hu & Hp).
      rewrite (change_password_ok _ _ _ new _ Hu Hp). simpl.
      by apply lookup_insert_ne.
    + by rewrite (change_password_false_state _ _ _ _ E).
  - apply login_users_file.
Qed.

Lemma other_users_unaffected_witness :
  let a := {| Auth.users_file := {[ "amy"%string := {| Auth.password := "pw9" |} ]};
              Auth.users_writes := 0; Auth.current_user := None |} in
  fst (Auth.login (snd (Auth.register a "bob" "pw1")) "amy" "pw9") = true.
Proof.
  intros a.
  destruct (other_users_unaffected a "bob" "amy") with
    (pw := "pw1"%string) (cur := ""%string) (new := ""%string)
    (opw := "pw9"%string) as (H & _); [discriminate |].
  rewrite H. vm_compute. reflexivity.
Defined.

(** ** Sessions and files *)

Section SessionFacts.

Import HomePage.

Variable uc : N -> list N.

Lemma add_auth valid mw text :
  auth (add_to_watchlist_from_entry uc valid mw text) = auth mw.
Proof.
  unfold add_to_watchlist_from_entry.
  destruct (5 <? List.length (parse_tickers uc text))%nat; [done |].
  by destruct (add_loop valid (parse_tickers uc text) (watchlist mw, [])).
Qed.

Lemma add_files valid mw text :
  files (add_to_watchlist_from_entry uc valid mw text) =
    if (5 <? List.length (parse_tickers uc text))%nat then files mw
    else <[watchlist_path (Auth.current_user (auth mw))
           := watchlist (add_to_watchlist_from_entry uc valid mw text)]>
           (files mw).
Proof.
  unfold add_to_watchlist_from_entry.
  destruct (5 <? List.length (parse_tickers uc text))%nat; [done |].
  by destruct (add_loop valid (parse_tickers uc text) (watchlist mw, [])).
Qed.

Lemma remove_auth mw stock : auth (remove_from_watchlist mw stock) = auth mw.
Proof.
  unfold remove_from_watchlist. by destruct (mem stock (watchlist mw)).
Qed.

Lemma remove_files mw stock :
  files (remove_from_watchlist mw stock) =
    if mem stock (watchlist mw)
    then <[watchlist_path (Auth.current_user (auth mw))
           := list_remove stock (watchlist mw)]> (files mw)
    else files mw.
Proof.
  unfold remove_from_watchlist. by destruct (mem stock (watchlist mw)).
Qed.

Lemma watchlist_load mw username :
  watchlist (load_watchlist mw username)
    = default [] (files mw !! watchlist_path username).
Proof.
  unfold load_watchlist. by destruct (files mw !! watchlist_path username).
Qed.

(** What a successful [LoginPage.login] leaves behind. *)
Lemma login_success mw u pw :
  fst (Auth.login (auth mw) u pw) = true ->
  let mw' := LoginPage.login mw u pw in
  Auth.current_user (auth mw') = Some u ∧
  watchlist mw' = default [] (files mw !! watchlist_path (Some u)) ∧
  files mw' = files mw ∧ file_writes mw' = file_writes mw ∧
  login_error_label mw' = ""%string.
Proof.
  intros H. unfold LoginPage.login.
  destruct (Auth.login (auth mw) u pw) as [ok a]. simpl in H. subst ok.
  unfold load_watchlist. simpl.
  by destruct (files mw !! watchlist_path (Some u)).
Qed.

Lemma in_session_synced u mw : in_session uc u mw -> synced u mw.
Proof.
  induction 1 as [mw pw H | valid mw text _ [Hu Hs] | mw stock _ [Hu Hs]].
  - destruct (login_success mw u pw H) as (Hc & Hw & Hf & _).
    split; [exact Hc |]. by rewrite watchlist_load, Hf, Hw.
  - split; [by rewrite add_auth |].
    rewrite watchlist_load, add_files, watchlist_add.
    destruct (5 <? List.length (parse_tickers uc text))%nat.
    + by rewrite <- watchlist_load.
    + by rewrite Hu, lookup_insert_eq.
  - split; [by rewrite remove_auth |].
    rewrite watchlist_load, remove_files, watchlist_remove.
    destruct (mem stock (watchlist mw)).
    + by rewrite Hu, lookup_insert_eq.
    + by rewrite <- watchlist_load.
Qed.

End SessionFacts.

(** X5. What a user has in the watchlist during a session is what the next
    login of that user loads: after logging out, or in a new window on the
    same files, a successful login brings the same watchlist back. *)
Theorem relogin_restores_watchlist (uc : N -> list N) (u : string)
    (mw : main_window) :
  in_session uc u mw ->
  forall (mw2 : main_window) (pw : string),
    files mw2 = files mw ->
    fst (Auth.login (auth mw2) u pw) = true ->
    watchlist (LoginPage.login mw2 u pw) = watchlist mw ∧
    files (logout mw) = files mw.
Proof.
  intros Hs mw2 pw Hf Hl.
  destruct (in_session_synced uc u mw Hs) as [_ Hsync].
  destruct (login_success mw2 u pw Hl) as (_ & Hw & _).
  split; [| done].
  by rewrite Hw, Hf, <- watchlist_load.
Qed.

Lemma relogin_restores_watchlist_witness :
  let users : gmap string Auth.user_record :=
    {[ "bob"%string := {| Auth.password := "pw1" |} ]} in
  let mw :=
    HomePage.remove_from_watchlist
      (HomePage.add_to_watchlist_from_entry uc_sample (fun _ => true)
         (LoginPage.login (new_main_window ∅ users) "bob" "pw1")
         (PyStr.lit "aapl, msft"))
      (PyStr.lit "AAPL") in
  watchlist (LoginPage.login (logout mw) "bob" "pw1") = [PyStr.lit "MSFT"].
Proof.
  intros users mw.
  destruct (relogin_restores_watchlist uc_sample "bob" mw) with
    (mw2 := logout mw) (pw := "pw1"%string) as [H _].
  - subst mw. apply session_remove, session_add, session_login.
    vm_compute. reflexivity.
  - reflexivity.
  - vm_compute. reflexivity.
  - rewrite H. vm_compute. reflexivity.
Defined.

(** ** Watchlist: removing, adding again, stored form *)

Section WatchlistMoreFacts.

Import HomePage PyStr.

Lemma list_remove_perm x l :
  x ∈ l -> Permutation l (x :: list_remove x l).
Proof.
  induction l as [|y l IH]; [by intros ?%elem_of_nil |].
  intros Hin. simpl. case_bool_decide as E.
  - by subst.
  - apply elem_of_cons in Hin as [-> | Hin]; [done |].
    rewrite (IH Hin) at 1. apply Permutation_swap.
Qed.

Lemma list_remove_snoc x l : x ∉ l -> list_remove x (l ++ [x]) = l.
Proof.
  induction l as [|y l IH]; intros Hn; simpl.
  - by rewrite bool_decide_eq_true_2.
  - apply not_elem_of_cons in Hn as [Hne Hn].
    rewrite bool_decide_eq_false_2 by done. by rewrite IH.
Qed.

Lemma add_step_settled valid wl inv t :
  settled valid wl t -> fst (add_step valid (wl, inv) t) = wl.
Proof.
  intros H. unfold add_step.
  destruct (0 <? List.length t)%nat eqn:E0; simpl; [| done].
  destruct (mem t wl) eqn:Em; simpl; [done |].
  destruct (List.length wl <? 25)%nat eqn:Ec; simpl; [| done].
  destruct (valid t) eqn:Ev; simpl; [| done].
  apply Nat.ltb_lt in E0, Ec. apply mem_false in Em.
  destruct H as [H | [H | [H | H]]]; [lia | done | congruence | lia].
Qed.

Lemma add_loop_settled valid wl inv tickers :
  Forall (settled valid wl) tickers ->
  fst (add_loop valid tickers (wl, inv)) = wl.
Proof.
  intros H. revert inv. induction H as [|t ts Ht _ IH]; intros inv; [done |].
  change (add_loop valid (t :: ts) (wl, inv))
    with (add_loop valid ts (add_step valid (wl, inv) t)).
  pose proof (add_step_settled valid wl inv t Ht) as E.
  destruct (add_step valid (wl, inv) t) as [wl1 inv1]. simpl in E.
  subst wl1. apply IH.
Qed.

Lemma settled_grow valid wl wl' t :
  (forall x, x ∈ wl -> x ∈ wl') ->
  (List.length wl <= List.length wl')%nat ->
  settled valid wl t -> settled valid wl' t.
Proof. intros Hs Hl [H | [H | [H | H]]]; unfold settled; auto. right. right. right. lia. Qed.

(** After the loop every ticker of the input is settled. *)
Lemma add_loop_all_settled valid wl0 tickers :
  Forall (settled valid (fst (add_loop valid tickers (wl0, [])))) tickers.
Proof.
  induction tickers as [|t ts IH] using rev_ind; [constructor |].
  rewrite add_loop_snoc.
  destruct (add_loop valid ts (wl0, [])) as [wl inv]. simpl in IH.
  assert (Hstep :
    (forall x, x ∈ wl -> x ∈ fst (add_step valid (wl, inv) t)) ∧
    (List.length wl <= List.length (fst (add_step valid (wl, inv) t)))%nat ∧
    settled valid (fst (add_step valid (wl, inv) t)) t).
  { unfold add_step, settled.
    destruct (0 <? List.length t)%nat eqn:E0; simpl.
    2:{ apply Nat.ltb_ge in E0. repeat split; auto. left. lia. }
    destruct (mem t wl) eqn:Em; simpl.
    { apply mem_true in Em. repeat split; auto. }
    destruct (List.length wl <? 25)%nat eqn:Ec; simpl.
    2:{ apply Nat.ltb_ge in Ec. repeat split; auto. }
    destruct (valid t) eqn:Ev; simpl.
    - split; [intros x Hx; apply elem_of_app; by left |].
      split; [rewrite length_app; lia |].
      right. left. apply elem_of_app. right. by apply list_elem_of_singleton.
    - repeat split; auto. }
  destruct Hstep as (Hsub & Hlen & Ht).
  apply Forall_app. split; [| constructor; [exact Ht | constructor]].
  eapply Forall_impl; [exact IH |]. intros x. by apply settled_grow.
Qed.

Lemma parse_tickers_normal_ticker uc text t :
  lower_free uc -> t ∈ parse_tickers uc text -> normal_ticker t.
Proof.
  intros Hfree Ht. destruct (parse_tickers_normal _ _ _ Ht) as (Hs & Hl).
  split; [intros ->; simpl in Hl; lia |]. split; [done |].
  split; [by apply (parse_tickers_no_lower uc text) |].
  by apply (parse_tickers_no_comma uc text).
Qed.

End WatchlistMoreFacts.

(** X7. Removing a ticker that is in the watchlist takes out one
    occurrence of it and nothing else, and writes the new list to the file
    of the current user; when the watchlist has no duplicates the ticker is
    gone afterwards. *)
Theorem remove_present (mw : main_window) (stock : list N) :
  stock ∈ watchlist mw ->
  let mw' := HomePage.remove_from_watchlist mw stock in
  let path := watchlist_path (Auth.current_user (auth mw)) in
  Permutation (watchlist mw) (stock :: watchlist mw') ∧
  (NoDup (watchlist mw) -> stock ∉ watchlist mw') ∧
  files mw' !! path = Some (watchlist mw') ∧
  file_writes mw' = path :: file_writes mw.
Proof.
  intros Hin mw' path. subst mw' path.
  pose proof (proj2 (mem_true _ _) Hin) as Hm.
  rewrite watchlist_remove, remove_files. unfold HomePage.remove_from_watchlist.
  rewrite Hm. simpl.
  split; [by apply list_remove_perm |].
  split; [| split; [apply lookup_insert_eq | done]].
  intros Hnd Hin'.
  pose proof (list_remove_perm _ _ Hin) as Hp.
  rewrite Hp in Hnd. apply NoDup_cons in Hnd as [Hn _]. done.
Qed.

Lemma remove_present_witness :
  let mw := set_watchlist (new_main_window ∅ ∅)
              [PyStr.lit "AAPL"; PyStr.lit "MSFT"; PyStr.lit "GOOG"] in
  watchlist (HomePage.remove_from_watchlist mw (PyStr.lit "MSFT"))
    = [PyStr.lit "AAPL"; PyStr.lit "GOOG"] ∧
  PyStr.lit "MSFT"
    ∉ watchlist (HomePage.remove_from_watchlist mw (PyStr.lit "MSFT")).
Proof.
  intros mw.
  destruct (remove_present mw (PyStr.lit "MSFT")) as (_ & Hgone & _).
  - vm_compute. apply list_elem_of_In. simpl. tauto.
  - split; [reflexivity |]. apply Hgone.
    apply NoDup_ListNoDup. repeat constructor; simpl; intuition discriminate.
Defined.

(** X8. Submitting the same entry text a second time leaves the watchlist
    as the first submission made it (the validity check answering the
    same). *)
Theorem add_twice_same_watchlist (uc : N -> list N) (valid : list N -> bool)
    (mw : main_window) (text : list N) :
  let mw1 := HomePage.add_to_watchlist_from_entry uc valid mw text in
  watchlist (HomePage.add_to_watchlist_from_entry uc valid mw1 text)
    = watchlist mw1.
Proof.
  intros mw1. subst mw1. rewrite !watchlist_add.
  destruct (5 <? List.length (HomePage.parse_tickers uc text))%nat; [done |].
  apply add_loop_settled, add_loop_all_settled.
Qed.

(** X9. Adding one new ticker that is accepted and then removing it gives
    the watchlist of before. *)
Theorem add_then_remove (uc : N -> list N) (valid : list N -> bool)
    (mw : main_window) (text t : list N) :
  HomePage.parse_tickers uc text = [t] ->
  t ∉ watchlist mw ->
  (List.length (watchlist mw) < 25)%nat ->
  valid t = true ->
  watchlist (HomePage.add_to_watchlist_from_entry uc valid mw text)
    = (watchlist mw ++ [t])%list ∧
  watchlist (HomePage.remove_from_watchlist
               (HomePage.add_to_watchlist_from_entry uc valid mw text) t)
    = watchlist mw.
Proof.
  intros Hp Hn Hl Hv.
  assert (Ht : (0 < List.length t)%nat).
  { apply (parse_tickers_normal uc text). rewrite Hp.
    by apply list_elem_of_singleton. }
  assert (Hw : watchlist (HomePage.add_to_watchlist_from_entry uc valid mw text)
               = (watchlist mw ++ [t])%list).
  { rewrite watchlist_add, Hp. simpl.
    unfold HomePage.add_loop, HomePage.add_step. simpl.
    rewrite (proj2 (Nat.ltb_lt _ _) Ht), (proj2 (mem_false _ _) Hn),
      (proj2 (Nat.ltb_lt _ _) Hl), Hv. done. }
  split; [exact Hw |].
  rewrite watchlist_remove, Hw.
  assert (Hm : HomePage.mem t (watchlist mw ++ [t]) = true).
  { apply mem_true, elem_of_app. right. by apply list_elem_of_singleton. }
  rewrite Hm. by apply list_remove_snoc.
Qed.

Lemma add_then_remove_witness :
  let mw := set_watchlist (new_main_window ∅ ∅) [PyStr.lit "AAPL"] in
  watchlist (HomePage.remove_from_watchlist
               (HomePage.add_to_watchlist_from_entry uc_sample (fun _ => true)
                  mw (PyStr.lit " msft "))
               (PyStr.lit "MSFT"))
    = [PyStr.lit "AAPL"].
Proof.
  intros mw.
  destruct (add_then_remove uc_sample (fun _ => true) mw (PyStr.lit " msft ")
              (PyStr.lit "MSFT")) as [_ H].
  - reflexivity.
  - subst mw. simpl. rewrite list_elem_of_singleton. discriminate.
  - simpl. lia.
  - reflexivity.
  - exact H.
Defined.

(** X10. Every ticker of a watchlist built from the empty one by adding and
    removing is in stored form: not empty, without surrounding white space,
    without a comma and without any of the letters a to z.  The text may
    hold any code points; the last part uses that no upper case of the case
    table holds one of the letters a to z. *)
Theorem reachable_tickers_normal (uc : N -> list N) (mw : main_window) :
  lower_free uc ->
  reachable uc mw -> Forall normal_ticker (watchlist mw).
Proof.
  intros Hfree.
  induction 1 as [mw H | valid mw text _ IH | mw stock _ IH].
  - rewrite H. constructor.
  - rewrite watchlist_add.
    destruct (5 <? List.length (HomePage.parse_tickers uc text))%nat; [done |].
    destruct (add_loop_global valid (watchlist mw)
                (HomePage.parse_tickers uc text))
      as [(added & -> & Hadded) _].
    apply Forall_app. split; [done |].
    eapply Forall_impl; [exact Hadded |]. simpl.
    intros t [Ht _]. by apply (parse_tickers_normal_ticker uc text).
  - rewrite watchlist_remove.
    destruct (HomePage.mem stock (watchlist mw)); [| done].
    apply Forall_forall. intros t Ht%list_remove_subset.
    rewrite Forall_forall in IH. by apply IH.
Qed.

Lemma reachable_tickers_normal_witness :
  let text := (PyStr.lit " brk.b ,, stra" ++ [223%N] ++ PyStr.lit "e")%list in
  let mw := HomePage.add_to_watchlist_from_entry uc_sample (fun _ => true)
              (new_main_window ∅ ∅) text in
  watchlist mw = [PyStr.lit "BRK.B"; PyStr.lit "STRASSE"] ∧
  Forall normal_ticker (watchlist mw).
Proof.
  intros text mw. split; [reflexivity |].
  apply (reachable_tickers_normal uc_sample); [apply uc_sample_lower_free |].
  apply reach_add, reach_empty. reflexivity.
Defined.

(** ** The toggle buttons of the details page *)

Section DictFacts.

Context {V : Type}.
Implicit Types (d : list (string * V)) (k : string) (v : V).

Lemma dict_get_is_Some k d : k ∈ List.map fst d -> is_Some (PyDict.get k d).
Proof.
  induction d as [|[k' v'] d IH]; simpl; [by intros ?%elem_of_nil |].
  destruct (String.eqb k k') eqn:E; [by eexists |].
  apply String.eqb_neq in E.
  intros [-> | H]%elem_of_cons; [done | by apply IH].
Qed.

Lemma dict_set_keys k v d :
  is_Some (PyDict.get k d) ->
  List.map fst (PyDict.set k v d) = List.map fst d.
Proof.
  induction d as [|[k' v'] d IH]; simpl; [by intros [? ?] |].
  destruct (String.eqb k k'); [done |]. intros H. simpl. f_equal. auto.
Qed.

Lemma dict_get_set k k' v d :
  is_Some (PyDict.get k d) ->
  PyDict.get k' (PyDict.set k v d)
    = if String.eqb k' k then Some v else PyDict.get k' d.
Proof.
  induction d as [|[k0 v0] d IH]; simpl; [by intros [? ?] |].
  destruct (String.eqb k k0) eqn:E; simpl.
  - apply String.eqb_eq in E. subst k0. intros _.
    by destruct (String.eqb k' k).
  - intros H. rewrite (IH H).
    destruct (String.eqb k' k0) eqn:E'; [| done].
    apply String.eqb_eq in E'. subst k0.
    by rewrite String.eqb_sym, E.
Qed.

Lemma dict_set_same k v d : PyDict.get k d = Some v -> PyDict.set k v d = d.
Proof.
  induction d as [|[k' v'] d IH]; simpl; [done |].
  destruct (String.eqb k k'); [by intros [= ->] |].
  intros H. by rewrite IH.
Qed.

Lemma dict_set_set k v v' d :
  is_Some (PyDict.get k d) ->
  PyDict.set k v (PyDict.set k v' d) = PyDict.set k v d.
Proof.
  induction d as [|[k' v0] d IH]; simpl; [by intros [? ?] |].
  destruct (String.eqb k k') eqn:E; simpl; rewrite E; [done |].
  intros H. by rewrite IH.
Qed.

End DictFacts.

Section ToggleFacts.

Import Toggles.

Lemma count_true_set_on k d :
  PyDict.get k d = Some false ->
  PyDict.count_true (PyDict.set k true d) = S (PyDict.count_true d).
Proof.
  unfold PyDict.count_true.
  induction d as [|[k' v'] d IH]; simpl; [done |].
  destruct (String.eqb k k'); simpl.
  - by intros [= ->].
  - intros H. destruct v'; simpl; by rewrite IH.
Qed.

Lemma count_true_set_off k d :
  PyDict.get k d = Some true ->
  S (PyDict.count_true (PyDict.set k false d)) = PyDict.count_true d.
Proof.
  unfold PyDict.count_true.
  induction d as [|[k' v'] d IH]; simpl; [done |].
  destruct (String.eqb k k'); simpl.
  - by intros [= ->].
  - intros H. destruct v'; simpl; by rewrite <- IH.
Qed.

Lemma has_button_true name : name ∈ button_names -> has_button name = true.
Proof. intros H. unfold has_button. by apply bool_decide_eq_true. Qed.

Lemma button_is_key name : name ∈ button_names -> name ∈ line_keys.
Proof. intros H. apply elem_of_cons. by right. Qed.

Lemma button_not_close name :
  name ∈ button_names -> String.eqb "Close Price" name = false.
Proof.
  intros H. apply String.eqb_neq. intros <-.
  apply list_elem_of_In in H. simpl in H. intuition discriminate.
Qed.

(** A button press on a state with the six switches never raises, keeps
    the two panel switches and keeps [lines_ok]. *)
Lemma toggle_line_ok p name :
  lines_ok (displayed_lines p) -> name ∈ button_names ->
  exists p', toggle_line p name = Done p' ∧
             lines_ok (displayed_lines p') ∧
             show_rsi p' = show_rsi p ∧ show_adx p' = show_adx p.
Proof.
  intros (Hk & Hc & Hn) Hb.
  assert (Hs : is_Some (PyDict.get name (displayed_lines p))).
  { apply dict_get_is_Some. rewrite Hk. by apply button_is_key. }
  unfold toggle_line. rewrite (has_button_true _ Hb).
  destruct Hs as [[|] Hg]; rewrite Hg.
  - eexists. split; [reflexivity |]. simpl. split; [| done].
    split; [by rewrite dict_set_keys by eauto |].
    split; [by rewrite dict_get_set, button_not_close by eauto |].
    pose proof (count_true_set_off _ _ Hg). lia.
  - destruct (PyDict.count_true (displayed_lines p) <? 3)%nat eqn:E.
    + eexists. split; [reflexivity |]. simpl. split; [| done].
      split; [by rewrite dict_set_keys by eauto |].
      split; [by rewrite dict_get_set, button_not_close by eauto |].
      rewrite (count_true_set_on _ _ Hg). apply Nat.ltb_lt in E. lia.
    + eexists. split; [reflexivity |]. done.
Qed.

Lemma reachable_lines_ok p : reachable p -> lines_ok (displayed_lines p).
Proof.
  induction 1 as [| p name p' _ IH Hb Ht | p _ IH | p _ IH]; try done.
  - repeat split. simpl. vm_compute. lia.
  - destruct (toggle_line_ok p name IH Hb) as (p'' & E & Hok & _).
    rewrite E in Ht. by injection Ht as <-.
Qed.

Lemma reachable_exclusive p : reachable p -> show_rsi p && show_adx p = false.
Proof.
  induction 1 as [| p name p' Hr IH Hb Ht | p _ IH | p _ IH]; try done.
  - destruct (toggle_line_ok p name (reachable_lines_ok p Hr) Hb)
      as (p'' & E & _ & H1 & H2).
    rewrite E in Ht. injection Ht as <-. by rewrite H1, H2.
  - unfold toggle_rsi. simpl. by destruct (show_rsi p).
  - unfold toggle_adx. simpl. by destruct (show_adx p), (show_rsi p).
Qed.

End ToggleFacts.

(** X11. The RSI panel and the ADX panel are never switched on together:
    switching one on switches the other off.  When [plot_data] has rows to
    draw, the panel under the chart is the RSI one exactly when RSI is on
    and the ADX one exactly when ADX is on; when there is no data it returns
    at its first statement and draws nothing. *)
Theorem panels_exclusive (p : Toggles.t) :
  Toggles.reachable p ->
  Toggles.show_rsi p && Toggles.show_adx p = false ∧
  (forall data : option (list bar),
     (Toggles.secondary_panel p data = Some Toggles.RsiPanel
        <-> Toggles.no_data data = false ∧ Toggles.show_rsi p = true) ∧
     (Toggles.secondary_panel p data = Some Toggles.AdxPanel
        <-> Toggles.no_data data = false ∧ Toggles.show_adx p = true) ∧
     (Toggles.secondary_panel p data = None
        <-> Toggles.no_data data = true)) ∧
  Toggles.show_adx (Toggles.toggle_rsi p) = false ∧
  Toggles.show_rsi (Toggles.toggle_adx p) = false.
Proof.
  intros H. pose proof (reachable_exclusive p H) as E.
  split; [exact E |]. split.
  - intros data. unfold Toggles.secondary_panel.
    destruct (Toggles.no_data data), (Toggles.show_rsi p),
      (Toggles.show_adx p); simpl; try done; repeat split;
      try done; intros []; done.
  - unfold Toggles.toggle_rsi, Toggles.toggle_adx. simpl.
    by destruct (Toggles.show_rsi p), (Toggles.show_adx p).
Qed.

Lemma panels_exclusive_witness :
  let p := Toggles.toggle_adx (Toggles.toggle_rsi Toggles.init) in
  Toggles.show_rsi p = false ∧ Toggles.show_adx p = true ∧
  Toggles.secondary_panel p (Some [ohlc 3 1 2]) = Some Toggles.AdxPanel ∧
  Toggles.secondary_panel p None = None ∧
  Toggles.secondary_panel p (Some []) = None.
Proof.
  intros p.
  destruct (panels_exclusive p) as (_ & Hdata & _).
  - apply Toggles.reach_adx, Toggles.reach_rsi, Toggles.reach_init.
  - split; [reflexivity |]. split; [reflexivity |].
    split; [by apply (Hdata (Some [ohlc 3 1 2])) |].
    split; [by apply (Hdata None) | by apply (Hdata (Some []))].
Defined.

(** X12. Whatever line buttons are pressed, the close price stays switched
    on and at most three lines are on, the close price counted: at most two
    of the five overlays.  A press of a line button never raises. *)
Theorem lines_at_most_three (p : Toggles.t) :
  Toggles.reachable p ->
  PyDict.get "Close Price" (Toggles.displayed_lines p) = Some true ∧
  (PyDict.count_true (Toggles.displayed_lines p) <= 3)%nat ∧
  List.map fst (Toggles.displayed_lines p) = line_keys ∧
  (forall name, name ∈ Toggles.button_names ->
     exists p', Toggles.toggle_line p name = Toggles.Done p').
Proof.
  intros H. pose proof (reachable_lines_ok p H) as Hok.
  destruct Hok as (Hk & Hc & Hn). repeat split; try done.
  intros name Hb.
  destruct (toggle_line_ok p name (conj Hk (conj Hc Hn)) Hb) as (p' & E & _).
  by exists p'.
Qed.

Lemma lines_at_most_three_witness :
  let p1 := Toggles.set_line Toggles.init "50-day SMA" true in
  let p2 := Toggles.set_line p1 "12-day EMA" true in
  Toggles.toggle_line p2 "Upper Bollinger Band" = Toggles.Done p2 ∧
  (PyDict.count_true (Toggles.displayed_lines p2) <= 3)%nat.
Proof.
  intros p1 p2. split; [reflexivity |].
  apply lines_at_most_three.
  apply (Toggles.reach_line p1 "12-day EMA");
    [apply (Toggles.reach_line Toggles.init "50-day SMA");
       [apply Toggles.reach_init | | reflexivity]
    | | reflexivity];
    apply list_elem_of_In; simpl; tauto.
Defined.

(** X13. Pressing the same line button twice in a row gives back the
    switches of before. *)
Theorem toggle_line_twice (p p1 p2 : Toggles.t) (name : string) :
  Toggles.reachable p ->
  name ∈ Toggles.button_names ->
  Toggles.toggle_line p name = Toggles.Done p1 ->
  Toggles.toggle_line p1 name = Toggles.Done p2 ->
  p2 = p.
Proof.
  intros Hr Hb H1 H2.
  destruct (reachable_lines_ok p Hr) as (Hk & Hc & Hn).
  assert (Hs : is_Some (PyDict.get name (Toggles.displayed_lines p))).
  { apply dict_get_is_Some. rewrite Hk. by apply button_is_key. }
  unfold Toggles.toggle_line in H1. rewrite (has_button_true _ Hb) in H1.
  destruct Hs as [[|] Hg]; rewrite Hg in H1.
  - injection H1 as <-. unfold Toggles.toggle_line in H2. simpl in H2.
    rewrite dict_get_set, String.eqb_refl, (has_button_true _ Hb) in H2
      by eauto.
    pose proof (count_true_set_off _ _ Hg) as Hcnt.
    assert (E : (PyDict.count_true
                   (PyDict.set name false (Toggles.displayed_lines p)) <? 3)%nat
                = true) by (apply Nat.ltb_lt; lia).
    rewrite E in H2. injection H2 as <-.
    unfold Toggles.set_line. simpl.
    rewrite dict_set_set by eauto. rewrite (dict_set_same _ _ _ Hg).
    by destruct p.
  - destruct (PyDict.count_true (Toggles.displayed_lines p) <? 3)%nat eqn:E.
    + injection H1 as <-. unfold Toggles.toggle_line in H2. simpl in H2.
      rewrite dict_get_set, String.eqb_refl, (has_button_true _ Hb) in H2
        by eauto.
      injection H2 as <-. unfold Toggles.set_line. simpl.
      rewrite dict_set_set by eauto. rewrite (dict_set_same _ _ _ Hg).
      by destruct p.
    + injection H1 as <-. unfold Toggles.toggle_line in H2.
      rewrite Hg, E in H2. by injection H2 as <-.
Qed.

Lemma toggle_line_twice_witness :
  Toggles.set_line (Toggles.set_line Toggles.init "200-day SMA" true)
    "200-day SMA" false = Toggles.init.
Proof.
  apply (toggle_line_twice Toggles.init
           (Toggles.set_line Toggles.init "200-day SMA" true) _ "200-day SMA").
  - apply Toggles.reach_init.
  - apply list_elem_of_In. simpl. tauto.
  - reflexivity.
  - reflexivity.
Defined.

(** ** Bounds on the indicator columns *)

Section BoundFacts.

Import Series StockDetailsPage.

Lemma inject_count_S (n : nat) :
  inject_Z (Z.of_nat (S n)) == inject_Z (Z.of_nat n) + 1.
Proof. rewrite Nat2Z.inj_succ. unfold Z.succ. by rewrite inject_Z_plus. Qed.

Lemma sum_between lo hi obs :
  Forall (between lo hi) obs ->
  exists s, sum obs = Fin s ∧
            lo * inject_Z (Z.of_nat (List.length obs)) <= s
            ∧ s <= hi * inject_Z (Z.of_nat (List.length obs)).
Proof.
  induction 1 as [|x obs Hx _ (s & Hs & Hlo & Hhi)].
  - exists 0. split; [done |]. cbn [List.length].
    change (inject_Z (Z.of_nat 0)) with 0. lra.
  - change (sum (x :: obs)) with (F.add x (sum obs)). rewrite Hs.
    destruct x as [q| | |]; try done. simpl in Hx.
    exists (q + s). split; [done |].
    cbn [List.length]. rewrite inject_count_S.
    set (N := inject_Z (Z.of_nat (List.length obs))) in *.
    assert (E1 : lo * (N + 1) == lo * N + lo) by ring.
    assert (E2 : hi * (N + 1) == hi * N + hi) by ring.
    rewrite E1, E2. lra.
Qed.

Lemma obs_between lo hi win :
  Forall (between_or_nan lo hi) win ->
  Forall (between lo hi) (List.filter F.is_obs win).
Proof.
  induction 1 as [|x l Hx Hl IH]; simpl; [constructor |].
  destruct x; simpl; try done; by constructor.
Qed.

Lemma window_mean_between lo hi minp win :
  Forall (between_or_nan lo hi) win ->
  between_or_nan lo hi (window_mean minp win).
Proof.
  intros H. unfold window_mean.
  destruct ((minp <=? _)%nat && (0 <? _)%nat) eqn:E; [| done].
  apply andb_true_iff in E as [_ Hn%Nat.ltb_lt].
  destruct (sum_between _ _ _ (obs_between _ _ _ H)) as (s & -> & Hlo & Hhi).
  rewrite div_by_count by done. simpl.
  pose proof (count_pos _ Hn) as Hc. split.
  - by apply Qle_shift_div_l.
  - by apply Qle_shift_div_r.
Qed.

Lemma rolling_mean_between lo hi w minp xs :
  Forall (between_or_nan lo hi) xs ->
  Forall (between_or_nan lo hi) (rolling_mean w minp xs).
Proof.
  intros H. apply Forall_lookup. intros i v [_ ->]%lookup_rolling_mean.
  by apply window_mean_between, Forall_window_at.
Qed.

End BoundFacts.

(** ** The range of ADX and of the directional indicators *)

Section AdxRangeFacts.

Import Series StockDetailsPage.

Lemma dx_ratio_bound s t a :
  0 <= s -> 0 <= t -> ~ a == 0 ->
  ~ 100 * s / a + 100 * t / a == 0 ->
  Qabs ((100 * s / a + - (100 * t / a)) / (100 * s / a + 100 * t / a)) <= 1.
Proof.
  intros Hs Ht Ha Hpm.
  assert (Hst : 0 < s + t).
  { destruct (Qlt_le_dec 0 (s + t)) as [|Hle]; [done |].
    exfalso. apply Hpm.
    assert (Hs0 : s == 0) by lra. assert (Ht0 : t == 0) by lra.
    rewrite Hs0, Ht0. field. exact Ha. }
  assert (E : (100 * s / a + - (100 * t / a)) / (100 * s / a + 100 * t / a)
              == (s - t) / (s + t)).
  { field. repeat split; first [exact Ha | lra]. }
  rewrite E. apply Qabs_Qle_condition. split.
  - apply Qle_shift_div_l; lra.
  - apply Qle_shift_div_r; lra.
Qed.

Lemma dx_cell_between s t a c :
  0 <= s -> 0 <= t -> (a ?= 0) = c -> c ≠ Eq ->
  (100 * s / a + 100 * t / a ?= 0) ≠ Eq ->
  0 <= 100 * Qabs ((100 * s / a + - (100 * t / a))
                   / (100 * s / a + 100 * t / a)) <= 100.
Proof.
  intros Hs Ht Ea Hc E.
  assert (Ha : ~ a == 0).
  { intros Hz%Qeq_alt. congruence. }
  assert (Hpm : ~ 100 * s / a + 100 * t / a == 0).
  { intros Hz%Qeq_alt. congruence. }
  pose proof (dx_ratio_bound s t a Hs Ht Ha Hpm) as Hb.
  pose proof (Qabs_nonneg
    ((100 * s / a + - (100 * t / a)) / (100 * s / a + 100 * t / a))) as Hn.
  set (Y := Qabs _) in *. clearbody Y. lra.
Qed.

Lemma dx_of_di_between sp sm atr :
  nonneg_or_nan sp -> nonneg_or_nan sm -> fin_or_nan atr ->
  between_or_nan 0 100 (dx_of (di_of sp atr) (di_of sm atr)).
Proof.
  destruct sp as [s| | |], sm as [t| | |], atr as [a| | |];
    intros Hs Ht _; try done; unfold dx_of, di_of; simpl;
    [| by destruct (a ?= 0), (100 * s ?= 0)].
  simpl in Hs, Ht.
  pose proof (dx_cell_between s t a _ Hs Ht eq_refl) as Hcell.
  assert (Hzero : ~ a == 0 -> (100 * s / a + 100 * t / a ?= 0) = Eq ->
                  (100 * s / a + - (100 * t / a) ?= 0) = Eq).
  { intros Ha E%Qeq_alt. by apply Qeq_alt, di_sum_zero. }
  destruct (a ?= 0) eqn:Ea.
  - by destruct (100 * s ?= 0), (100 * t ?= 0).
  - apply Qlt_alt in Ea. assert (Ha : ~ a == 0) by lra.
    simpl. destruct (100 * s / a + 100 * t / a ?= 0) eqn:E.
    + by rewrite Hzero.
    + simpl. by apply Hcell.
    + simpl. by apply Hcell.
  - apply Qgt_alt in Ea. assert (Ha : ~ a == 0) by lra.
    simpl. destruct (100 * s / a + 100 * t / a ?= 0) eqn:E.
    + by rewrite Hzero.
    + simpl. by apply Hcell.
    + simpl. by apply Hcell.
Qed.

Lemma adx_dx_between data period :
  Forall (between_or_nan 0 100) (adx_dx data period).
Proof.
  apply Forall_lookup. intros i d.
  unfold adx_dx, adx_plus_di_raw, adx_minus_di_raw.
  intros (p & m & -> & Hp & Hm)%lookup_zip_with_Some.
  apply lookup_zip_with_Some in Hp as (sp & atr & -> & Hsp & Hatr).
  apply lookup_zip_with_Some in Hm as (sm & atr' & -> & Hsm & Hatr').
  assert (atr' = atr) as -> by congruence.
  apply dx_of_di_between.
  - eapply (proj1 (Forall_lookup _ _)); [| exact Hsp].
    apply rolling_mean_nonneg, adx_plus_dm_nonneg.
  - eapply (proj1 (Forall_lookup _ _)); [| exact Hsm].
    apply rolling_mean_nonneg, adx_minus_dm_nonneg.
  - eapply (proj1 (Forall_lookup _ _)); [| exact Hatr].
    apply rolling_mean_fin_or_nan, adx_tr_fin_or_nan.
Qed.

Lemma clean_between lo hi xs :
  lo <= 0 <= hi ->
  Forall (between_or_nan lo hi) xs -> Forall (between lo hi) (clean xs).
Proof.
  intros H0 H. unfold clean. rewrite map_fmap. apply Forall_fmap.
  eapply Forall_impl; [exact H |]. by intros [].
Qed.

Lemma abs_diff_nonneg xs ys :
  Forall F.is_finite xs -> Forall fin_or_nan ys ->
  Forall nonneg_or_nan (List.map F.abs (zip_with F.sub xs ys)).
Proof.
  intros Hx Hy. rewrite map_fmap. apply Forall_fmap.
  apply (Forall_zip_with_2 _ F.is_finite fin_or_nan); [| done | done].
  intros [a| | |] [b| | |] Ha Hb; try done. exact (Qabs_nonneg _).
Qed.

(** True range is not negative on bars whose high is not below the low. *)
Lemma adx_tr_nonneg data :
  (forall b, b ∈ data -> Low b <= High b) ->
  Forall nonneg_or_nan (adx_tr data).
Proof.
  intros Hhl. apply Forall_lookup. intros i v. unfold adx_tr.
  intros (ab & c & -> & Hab & Hc)%lookup_zip_with_Some.
  apply lookup_zip_with_Some in Hab as (a & b & -> & Ha & Hb).
  apply lookup_zip_with_Some in Ha as (h & l & -> & Hh & Hl).
  unfold col in Hh, Hl.
  apply lookup_of_prices in Hh as (hq & -> & Hh).
  apply lookup_of_prices in Hl as (lq & -> & Hl).
  rewrite map_fmap in Hh, Hl.
  apply list_lookup_fmap_Some_1 in Hh as (bh & -> & Hbh).
  apply list_lookup_fmap_Some_1 in Hl as (bl & -> & Hbl).
  assert (bl = bh) as -> by congruence.
  assert (H0 : 0 <= High bh + - Low bh).
  { pose proof (Hhl bh (list_elem_of_lookup_2 _ _ _ Hbh)). lra. }
  assert (Hbn : nonneg_or_nan b).
  { eapply (proj1 (Forall_lookup _ _)); [| exact Hb].
    apply abs_diff_nonneg; [apply Forall_col | apply Forall_shift, Forall_col]. }
  assert (Hcn : nonneg_or_nan c).
  { eapply (proj1 (Forall_lookup _ _)); [| exact Hc].
    apply abs_diff_nonneg; [apply Forall_col | apply Forall_shift, Forall_col]. }
  simpl. unfold row_max3.
  destruct b as [bq| | |], c as [cq| | |]; simpl in *; try done.
  - pose proof (Q.le_max_l (High bh + - Low bh) bq).
    pose proof (Q.le_max_l (Qmax (High bh + - Low bh) bq) cq). lra.
  - pose proof (Q.le_max_l (High bh + - Low bh) bq). lra.
  - pose proof (Q.le_max_l (High bh + - Low bh) cq). lra.
Qed.

Lemma di_of_clean_nonneg s a :
  nonneg_or_nan s -> nonneg_or_nan a ->
  exists q, F.fillna 0 (F.replace_inf (di_of s a)) = Fin q ∧ 0 <= q.
Proof.
  intros Hs Ha.
  destruct s as [s| | |], a as [a| | |]; try done;
    try (by exists 0). unfold di_of. simpl in *.
  destruct (a ?= 0) eqn:Ea.
  - destruct (100 * s ?= 0); by exists 0.
  - apply Qlt_alt in Ea. lra.
  - apply Qgt_alt in Ea. simpl. eexists. split; [reflexivity |].
    apply Qle_shift_div_l; lra.
Qed.

End AdxRangeFacts.

(** X15. Every ADX value lies between 0 and 100, for any bars and any
    period the computation accepts. *)
Theorem adx_between_0_100 (data : list bar) (period : nat)
    (adx plus_di minus_di : list fval) :
  StockDetailsPage.calculate_adx data period = Some (adx, plus_di, minus_di) ->
  Forall (between 0 100) adx.
Proof.
  unfold StockDetailsPage.calculate_adx.
  destruct (period =? 0)%nat; [done |]. intros [= <- _ _].
  apply clean_between; [lra |].
  unfold StockDetailsPage.adx_raw.
  apply rolling_mean_between, adx_dx_between.
Qed.

Lemma adx_between_0_100_witness :
  let data := [ohlc 11 10 10; ohlc 13 11 12; ohlc 12 9 10; ohlc 14 10 13] in
  Forall (between 0 100)
    (StockDetailsPage.clean (StockDetailsPage.adx_raw data 2)).
Proof.
  intros data.
  apply (adx_between_0_100 data 2 _
           (StockDetailsPage.clean (StockDetailsPage.adx_plus_di_raw data 2))
           (StockDetailsPage.clean (StockDetailsPage.adx_minus_di_raw data 2))).
  reflexivity.
Defined.

(** X16. On bars whose high is not below their low, the +DI and -DI values
    are never negative. *)
Theorem di_nonnegative (data : list bar) (period : nat)
    (adx plus_di minus_di : list fval) :
  (forall b, b ∈ data -> Low b <= High b) ->
  StockDetailsPage.calculate_adx data period = Some (adx, plus_di, minus_di) ->
  Forall (fun v => exists q, v = Fin q ∧ 0 <= q) plus_di ∧
  Forall (fun v => exists q, v = Fin q ∧ 0 <= q) minus_di.
Proof.
  intros Hhl. unfold StockDetailsPage.calculate_adx.
  destruct (period =? 0)%nat; [done |]. intros [= _ <- <-].
  pose proof (rolling_mean_nonneg period 1 _ (adx_tr_nonneg data Hhl)) as Hatr.
  fold (StockDetailsPage.adx_atr data period) in Hatr.
  rewrite Forall_lookup in Hatr.
  split; apply Forall_lookup; intros i v Hv; unfold StockDetailsPage.clean in Hv;
    rewrite map_fmap in Hv; apply list_lookup_fmap_Some_1 in Hv as (x & -> & Hx).
  - unfold StockDetailsPage.adx_plus_di_raw in Hx.
    apply lookup_zip_with_Some in Hx as (s & a & -> & Hs & Ha).
    apply di_of_clean_nonneg; [| by apply (Hatr i)].
    eapply (proj1 (Forall_lookup _ _)); [| exact Hs].
    apply rolling_mean_nonneg, adx_plus_dm_nonneg.
  - unfold StockDetailsPage.adx_minus_di_raw in Hx.
    apply lookup_zip_with_Some in Hx as (s & a & -> & Hs & Ha).
    apply di_of_clean_nonneg; [| by apply (Hatr i)].
    eapply (proj1 (Forall_lookup _ _)); [| exact Hs].
    apply rolling_mean_nonneg, adx_minus_dm_nonneg.
Qed.

Lemma di_nonnegative_witness :
  let data := [ohlc 11 10 10; ohlc 13 11 12; ohlc 12 9 10] in
  Forall (fun v => exists q, v = Fin q ∧ 0 <= q)
    (StockDetailsPage.clean (StockDetailsPage.adx_plus_di_raw data 2)).
Proof.
  intros data.
  apply (di_nonnegative data 2
           (StockDetailsPage.clean (StockDetailsPage.adx_raw data 2)) _
           (StockDetailsPage.clean (StockDetailsPage.adx_minus_di_raw data 2))).
  - intros b Hb. apply list_elem_of_In in Hb. simpl in Hb.
    destruct Hb as [<- | [<- | [<- | []]]]; simpl; lra.
  - reflexivity.
Defined.

(** ** Warm-up of the rolling columns and the lines drawn *)

Section WarmupFacts.

Import Series StockDetailsPage PlotData.

Lemma length_list_filter_le {A} (f : A -> bool) (l : list A) :
  (List.length (List.filter f l) <= List.length l)%nat.
Proof.
  induction l as [|x l IH]; simpl; [lia |]. destruct (f x); simpl; lia.
Qed.

Lemma list_filter_all {A} (f : A -> bool) (l : list A) :
  Forall (fun x => f x = true) l -> List.filter f l = l.
Proof.
  induction 1 as [|x l Hx _ IH]; simpl; [done |]. by rewrite Hx, IH.
Qed.

Lemma length_window_at w i xs :
  (i < List.length xs)%nat ->
  List.length (window_at w i xs) = Nat.min w (i + 1).
Proof.
  intros H. unfold window_at. rewrite length_drop, length_take. lia.
Qed.

Lemma window_mean_short minp win :
  (List.length win < minp)%nat -> window_mean minp win = NaN.
Proof.
  intros H. unfold window_mean.
  pose proof (length_list_filter_le F.is_obs win) as Hle.
  replace (minp <=? _)%nat with false; [done |].
  symmetry. apply Nat.leb_gt. lia.
Qed.

Lemma window_mean_empty minp : window_mean minp [] = NaN.
Proof. unfold window_mean. simpl. by rewrite andb_false_r. Qed.

(** Before [minp] rows are there the rolling mean is NaN. *)
Lemma rolling_warmup w minp xs i :
  (i < List.length xs)%nat -> (i + 1 < minp)%nat ->
  rolling_mean w minp xs !! i = Some NaN.
Proof.
  intros Hi Hm. apply lookup_rolling_mean. split; [done |].
  symmetry. apply window_mean_short. rewrite length_window_at by done. lia.
Qed.

Lemma rolling_window_zero minp xs i :
  (i < List.length xs)%nat -> rolling_mean 0 minp xs !! i = Some NaN.
Proof.
  intros Hi. apply lookup_rolling_mean. split; [done |].
  assert (E : window_at 0 i xs = []).
  { apply nil_length_inv. rewrite length_window_at by done. lia. }
  rewrite E. symmetry. apply window_mean_empty.
Qed.

(** With a full window of numbers the rolling mean is a number. *)
Lemma rolling_defined w xs i :
  Forall F.is_finite xs -> (1 <= w)%nat -> (w <= i + 1)%nat ->
  (i < List.length xs)%nat ->
  exists q, rolling_mean w w xs !! i = Some (Fin q).
Proof.
  intros Hf Hw Hwi Hi.
  pose proof (Forall_window_at _ w i xs Hf) as Hwin.
  assert (Hobs : List.filter F.is_obs (window_at w i xs) = window_at w i xs).
  { apply list_filter_all. eapply Forall_impl; [exact Hwin |]. by intros []. }
  destruct (sum_finite _ Hwin) as [s Hs].
  exists (s / inject_Z (Z.of_nat w)).
  apply lookup_rolling_mean. split; [done |].
  unfold window_mean. rewrite Hobs, length_window_at by done.
  replace (Nat.min w (i + 1)) with w by lia.
  rewrite Nat.leb_refl, (proj2 (Nat.ltb_lt 0 w)) by lia. simpl andb. cbv iota.
  rewrite Hs. by rewrite div_by_count by lia.
Qed.

Lemma isna_all_Forall xs : isna_all xs = true <-> Forall (eq NaN) xs.
Proof.
  unfold isna_all. rewrite List.forallb_forall, Forall_forall.
  split; intros H x Hx.
  - apply list_elem_of_In, H in Hx. by destruct x.
  - apply list_elem_of_In, H in Hx. by subst.
Qed.

Lemma isna_all_empty_column {A} (index : list A) :
  isna_all (empty_column index) = true.
Proof.
  apply isna_all_Forall. unfold empty_column. rewrite map_fmap.
  apply Forall_fmap, Forall_forall. by intros.
Qed.

Lemma isna_all_of_prices xs :
  isna_all (of_prices xs) = (List.length xs =? 0)%nat.
Proof. by destruct xs. Qed.

(** A rolling mean over numbers is all NaN exactly when the window is 0 or
    longer than the column. *)
Lemma isna_all_rolling w xs :
  Forall F.is_finite xs ->
  isna_all (rolling_mean w w xs)
    = negb ((1 <=? w)%nat && (w <=? List.length xs)%nat).
Proof.
  intros Hf.
  destruct ((1 <=? w)%nat && (w <=? List.length xs)%nat) eqn:E; simpl.
  - apply andb_true_iff in E as [H1%Nat.leb_le H2%Nat.leb_le].
    apply not_true_is_false. intros Hall%isna_all_Forall.
    destruct (rolling_defined w xs (w - 1) Hf) as [q Hq]; [lia.. |].
    rewrite Forall_lookup in Hall. by specialize (Hall _ _ Hq).
  - apply isna_all_Forall, Forall_lookup. intros i v Hv.
    pose proof (lookup_lt_Some _ _ _ Hv) as Hi.
    rewrite length_rolling_mean in Hi.
    apply andb_false_iff in E as [E%Nat.leb_gt | E%Nat.leb_gt].
    + assert (w = 0)%nat as -> by lia.
      rewrite rolling_window_zero in Hv by done. congruence.
    + rewrite rolling_warmup in Hv by (done || lia). congruence.
Qed.

Lemma length_ewm_from alpha prev xs :
  List.length (ewm_from alpha prev xs) = List.length xs.
Proof.
  revert prev. induction xs as [|x xs IH]; intros prev; simpl; [done |].
  by rewrite IH.
Qed.

Lemma length_ewm_mean n xs : List.length (ewm_mean n xs) = List.length xs.
Proof. destruct xs; simpl; [done |]. by rewrite length_ewm_from. Qed.

Lemma calculate_rsi_warmup series period i :
  (i < List.length series)%nat -> (i + 1 < period)%nat ->
  calculate_rsi series period !! i = Some NaN.
Proof.
  intros Hi Hp.
  assert (Hlen : forall xs, List.length (of_prices xs) = List.length xs).
  { intros xs. unfold of_prices. apply List.length_map. }
  assert (Hg : List.length (rsi_gain series) = List.length series).
  { unfold rsi_gain, series_where, rsi_delta.
    by rewrite List.length_map, length_diff, Hlen. }
  assert (Hl : List.length (rsi_loss series) = List.length series).
  { unfold rsi_loss, series_where, rsi_delta.
    by rewrite !List.length_map, length_diff, Hlen. }
  unfold calculate_rsi, rsi_rs, rsi_avg_gain, rsi_avg_loss.
  rewrite map_fmap, list_lookup_fmap, lookup_zip_with.
  rewrite (rolling_warmup _ _ (rsi_gain series)) by (rewrite ?Hg; lia).
  rewrite (rolling_warmup _ _ (rsi_loss series)) by (rewrite ?Hl; lia).
  done.
Qed.

End WarmupFacts.

(** X17. A rolling column needs a full window: on row [i] (counted from 0)
    the SMA column of window [n] is NaN exactly when [n] is 0 or the row is
    one of the first [n - 1], and a number otherwise; the RSI column is NaN
    on the first [period - 1] rows. *)
Theorem rolling_columns_warmup (data : list bar) (n i : nat) :
  (i < List.length data)%nat ->
  (StockDetailsPage.sma_column data n !! i = Some NaN
     <-> n = 0%nat ∨ (i + 1 < n)%nat) ∧
  ((1 <= n)%nat -> (n <= i + 1)%nat ->
   exists q, StockDetailsPage.sma_column data n !! i = Some (Fin q)) ∧
  ((i + 1 < n)%nat ->
   StockDetailsPage.calculate_rsi (PlotData.closes data) n !! i = Some NaN).
Proof.
  intros Hi.
  assert (Hlen : List.length (StockDetailsPage.col Close data) = List.length data)
    by apply length_col.
  assert (Hdef : (1 <= n)%nat -> (n <= i + 1)%nat ->
                 exists q, StockDetailsPage.sma_column data n !! i = Some (Fin q)).
  { intros H1 H2. unfold StockDetailsPage.sma_column.
    rewrite (proj2 (Nat.ltb_lt 0 n)) by lia.
    apply rolling_defined; [apply Forall_col | lia.. ]. }
  split; [| split; [exact Hdef |]].
  - split.
    + intros Hnan.
      destruct (decide (n = 0%nat)) as [| Hn]; [by left |]. right.
      destruct (decide (i + 1 < n)%nat) as [| Hge]; [done |].
      destruct Hdef as [q Hq]; [lia.. |]. congruence.
    + intros [-> | Hlt].
      * unfold StockDetailsPage.sma_column. simpl.
        unfold Series.empty_column. rewrite map_fmap, list_lookup_fmap.
        by destruct (lookup_lt_is_Some_2 data i Hi) as [b ->].
      * unfold StockDetailsPage.sma_column.
        rewrite (proj2 (Nat.ltb_lt 0 n)) by lia.
        apply rolling_warmup; lia.
  - intros Hlt. apply calculate_rsi_warmup; [| done].
    unfold PlotData.closes. by rewrite List.length_map.
Qed.

Lemma rolling_columns_warmup_witness :
  let data := [ohlc 11 10 10; ohlc 13 11 12; ohlc 12 9 10; ohlc 14 10 13] in
  StockDetailsPage.sma_column data 3 !! 1%nat = Some NaN ∧
  (exists q, StockDetailsPage.sma_column data 3 !! 2%nat = Some (Fin q)) ∧
  StockDetailsPage.calculate_rsi (PlotData.closes data) 3 !! 1%nat = Some NaN.
Proof.
  intros data.
  destruct (rolling_columns_warmup data 3 1) as (Hnan & _ & Hrsi);
    [simpl; lia |].
  destruct (rolling_columns_warmup data 3 2) as (_ & Hdef & _);
    [simpl; lia |].
  split; [apply Hnan; right; lia |].
  split; [apply Hdef; lia | apply Hrsi; lia].
Defined.

(** X18. Which period lines the chart draws.  The custom SMA line is drawn
    exactly when its window is at least 1 and at most the number of rows.
    The custom EMA line is drawn exactly when its span is at least 1 and
    there is a row -- except for a span of 12, whose column is the 12-day
    EMA column and needs 12 rows.  The 50-day and 200-day SMA lines and the
    12-day EMA line are drawn exactly when they are switched on and there
    are at least 50, 200 and 12 rows. *)
Theorem period_lines_drawn (p : Toggles.t) (data : list bar) (n : nat) :
  (PlotData.draws_custom_sma data n = true
     <-> (1 <= n)%nat ∧ (n <= List.length data)%nat) ∧
  (PlotData.draws_custom_ema data n = true
     <-> (1 <= n)%nat ∧ (1 <= List.length data)%nat
         ∧ (n = 12%nat -> (12 <= List.length data)%nat)) ∧
  PlotData.draws_sma_50 p data
    = (fun on => on && (50 <=? List.length data)%nat)
        <$> PyDict.get "50-day SMA" (Toggles.displayed_lines p) ∧
  PlotData.draws_sma_200 p data
    = (fun on => on && (200 <=? List.length data)%nat)
        <$> PyDict.get "200-day SMA" (Toggles.displayed_lines p) ∧
  PlotData.draws_ema_12 p data
    = (fun on => on && (12 <=? List.length data)%nat)
        <$> PyDict.get "12-day EMA" (Toggles.displayed_lines p).
Proof.
  assert (Hroll : forall w,
            PlotData.isna_all
              (Series.rolling_mean w w (StockDetailsPage.col Close data))
            = negb ((1 <=? w)%nat && (w <=? List.length data)%nat)).
  { intros w. rewrite isna_all_rolling by apply Forall_col.
    by rewrite length_col. }
  assert (E50 : PlotData.isna_all (PlotData.sma_50_column data)
                = negb (50 <=? List.length data)%nat).
  { unfold PlotData.sma_50_column.
    destruct (50 <=? List.length data)%nat eqn:E;
      [by rewrite Hroll, E | by rewrite isna_all_empty_column]. }
  assert (E200 : PlotData.isna_all (PlotData.sma_200_column data)
                 = negb (200 <=? List.length data)%nat).
  { unfold PlotData.sma_200_column.
    destruct (200 <=? List.length data)%nat eqn:E;
      [by rewrite Hroll, E | by rewrite isna_all_empty_column]. }
  assert (E12 : PlotData.isna_all (PlotData.ema_12_column data)
                = negb (12 <=? List.length data)%nat).
  { unfold PlotData.ema_12_column.
    destruct (12 <=? List.length data)%nat eqn:E;
      [| by rewrite isna_all_empty_column].
    rewrite isna_all_of_prices, length_ewm_mean.
    unfold PlotData.closes. rewrite List.length_map.
    apply Nat.leb_le in E. destruct data; [simpl in E; lia | done]. }
  split; [| split; [| split; [| split]]].
  - unfold PlotData.draws_custom_sma, PlotData.custom_sma_column.
    destruct (n =? 50)%nat eqn:N50; [| destruct (n =? 200)%nat eqn:N200].
    + apply Nat.eqb_eq in N50. subst n.
      rewrite E50, negb_involutive. change (0 <? 50)%nat with true.
      rewrite andb_true_l, Nat.leb_le. lia.
    + apply Nat.eqb_eq in N200. subst n.
      rewrite E200, negb_involutive. change (0 <? 200)%nat with true.
      rewrite andb_true_l, Nat.leb_le. lia.
    + unfold StockDetailsPage.sma_column.
      destruct n as [|n]; [simpl; split; [done | lia] |].
      change (0 <? S n)%nat with true. cbv iota.
      rewrite andb_true_l, Hroll, negb_involutive, andb_true_iff, !Nat.leb_le.
      done.
  - unfold PlotData.draws_custom_ema, PlotData.custom_ema_column.
    destruct (n =? 12)%nat eqn:N12.
    + apply Nat.eqb_eq in N12. subst n.
      rewrite E12, negb_involutive. change (0 <? 12)%nat with true.
      rewrite andb_true_l, Nat.leb_le. lia.
    + apply Nat.eqb_neq in N12. unfold StockDetailsPage.ema_column.
      destruct n as [|n]; [simpl; split; [done | lia] |].
      change (0 <? S n)%nat with true. cbv iota.
      rewrite andb_true_l, isna_all_of_prices, length_ewm_mean,
        List.length_map.
      destruct data; simpl; split; try done; try lia.
  - unfold PlotData.draws_sma_50. rewrite E50, negb_involutive.
    by destruct (PyDict.get _ _).
  - unfold PlotData.draws_sma_200. rewrite E200, negb_involutive.
    by destruct (PyDict.get _ _).
  - unfold PlotData.draws_ema_12. rewrite E12, negb_involutive.
    by destruct (PyDict.get _ _).
Qed.

Lemma period_lines_drawn_witness :
  let data := [ohlc 11 10 10; ohlc 13 11 12; ohlc 12 9 10] in
  PlotData.draws_custom_sma data 3 = true ∧
  PlotData.draws_custom_sma data 4 ≠ true ∧
  PlotData.draws_custom_ema data 11 = true ∧
  PlotData.draws_custom_ema data 12 ≠ true ∧
  PlotData.draws_sma_50 (Toggles.set_line Toggles.init "50-day SMA" true) data
    = Some false.
Proof.
  intros data.
  destruct (period_lines_drawn
              (Toggles.set_line Toggles.init "50-day SMA" true) data 3)
    as (H3 & _ & H50 & _).
  destruct (period_lines_drawn Toggles.init data 4) as (H4 & _).
  destruct (period_lines_drawn Toggles.init data 11) as (_ & H11 & _).
  destruct (period_lines_drawn Toggles.init data 12) as (_ & H12 & _).
  split; [apply H3; simpl; lia |].
  split; [intros H; apply H4 in H; simpl in H; lia |].
  split; [apply H11; simpl; repeat split; lia |].
  split; [intros H; apply H12 in H as (_ & _ & H); simpl in H;
          specialize (H eq_refl); lia |].
  rewrite H50. reflexivity.
Defined.

(** ** RSI on prices that only rise or only fall *)

Section RsiTrendFacts.

Import Series StockDetailsPage.

Lemma lookup_removelast {A} (l : list A) j :
  (S j < List.length l)%nat -> removelast l !! j = l !! j.
Proof.
  revert j. induction l as [|a l IH]; intros j Hj; [simpl in Hj; lia |].
  destruct l as [|b l]; [simpl in Hj; lia |].
  change (removelast (a :: b :: l)) with (a :: removelast (b :: l)).
  destruct j as [|j]; [done |]. simpl. apply IH. simpl in *. lia.
Qed.

Lemma lookup_shift_S xs j :
  (S j < List.length xs)%nat -> shift xs !! S j = xs !! j.
Proof.
  intros Hj. destruct xs as [|x xs]; [simpl in Hj; lia |].
  change (shift (x :: xs) !! S j) with (removelast (x :: xs) !! j).
  by apply lookup_removelast.
Qed.

(** The cells of [series.diff(1)]: NaN on row 0, then the differences. *)
Lemma lookup_rsi_delta series i d :
  rsi_delta series !! i = Some d ->
  (i = 0%nat ∧ d = NaN) ∨
  (exists j a b, i = S j ∧ series !! j = Some a ∧ series !! S j = Some b
                 ∧ d = Fin (b + - a)).
Proof.
  unfold rsi_delta, diff.
  intros (x & y & -> & Hx & Hy)%lookup_zip_with_Some.
  apply lookup_of_prices in Hx as (b & -> & Hb).
  destruct i as [|j].
  - left. split; [done |]. destruct series; [done |]. simpl in Hy.
    by injection Hy as <-.
  - right. rewrite lookup_shift_S in Hy.
    2:{ apply lookup_lt_Some in Hb. unfold of_prices.
        by rewrite List.length_map. }
    apply lookup_of_prices in Hy as (a & -> & Ha).
    by exists j, a, b.
Qed.

Lemma ltb_of_lt x y : x < y -> F.ltb x y = true.
Proof.
  intros H. apply Qlt_alt in H. unfold F.ltb.
  change ((x ?= y) = Lt) in H. by rewrite H.
Qed.

Lemma ltb_of_le x y : y <= x -> F.ltb x y = false.
Proof.
  intros H. unfold F.ltb. destruct (x ?= y) eqn:E; try done.
  apply Qlt_alt in E. lra.
Qed.

Lemma lookup_gain_loss series i g l :
  rsi_gain series !! i = Some g -> rsi_loss series !! i = Some l ->
  exists d, rsi_delta series !! i = Some d ∧
            g = (if F.gt0 d then d else Fin 0) ∧
            l = F.neg (if F.lt0 d then d else Fin 0).
Proof.
  unfold rsi_gain, rsi_loss, series_where. rewrite !map_fmap.
  intros (d & -> & Hd)%list_lookup_fmap_Some_1
         (x & -> & (d' & -> & Hd')%list_lookup_fmap_Some_1)%list_lookup_fmap_Some_1.
  exists d. assert (d' = d) as -> by congruence. done.
Qed.

Lemma sum_zero win :
  Forall zero_cell win -> exists s, sum win = Fin s ∧ s == 0.
Proof.
  induction 1 as [|x win Hx _ (s & Hs & Hs0)]; [by exists 0 |].
  change (sum (x :: win)) with (F.add x (sum win)). rewrite Hs.
  destruct x as [q| | |]; try done. simpl in Hx.
  exists (q + s). split; [done | lra].
Qed.

Lemma sum_positive win x :
  Forall nonneg win -> x ∈ win -> positive_cell x ->
  exists s, sum win = Fin s ∧ 0 < s.
Proof.
  intros Hn Hin Hx.
  induction Hn as [|y win Hy Hn IH]; [by apply elem_of_nil in Hin |].
  change (sum (y :: win)) with (F.add y (sum win)).
  destruct (sum_nonneg _ Hn) as (s & Hs & Hs0). rewrite Hs.
  destruct y as [q| | |]; try done. simpl in Hy.
  exists (q + s). split; [done |].
  apply elem_of_cons in Hin as [-> | Hin].
  - simpl in Hx. lra.
  - destruct (IH Hin) as (s' & Hs' & Hpos).
    rewrite Hs in Hs'. injection Hs' as <-. lra.
Qed.

(** The mean of a window of [w] numbers. *)
Lemma window_mean_full w win s :
  Forall F.is_finite win -> List.length win = w -> (1 <= w)%nat ->
  sum win = Fin s ->
  window_mean w win = Fin (s / inject_Z (Z.of_nat w)).
Proof.
  intros Hf Hlen Hw Hs. unfold window_mean.
  rewrite list_filter_all by (eapply Forall_impl; [exact Hf |]; by intros []).
  rewrite Hlen, Nat.leb_refl, (proj2 (Nat.ltb_lt 0 w)) by lia.
  simpl andb. cbv iota. rewrite Hs. by rewrite div_by_count by lia.
Qed.

Lemma window_at_last w i xs x :
  (1 <= w)%nat -> xs !! i = Some x -> x ∈ window_at w i xs.
Proof.
  intros Hw Hx. unfold window_at.
  apply (list_elem_of_lookup_2 _ (i - (i + 1 - w))).
  rewrite lookup_drop, lookup_take_lt by lia.
  replace (i + 1 - w + (i - (i + 1 - w)))%nat with i by lia. done.
Qed.

Lemma rsi_zero_loss g l :
  0 < g -> l == 0 ->
  exists q, rsi_of_rs (F.div (Fin g) (Fin l)) = Fin q ∧ q == 100.
Proof.
  intros Hg%Qgt_alt Hl%Qeq_alt. simpl. rewrite Hl, Hg.
  eexists. split; [reflexivity |]. reflexivity.
Qed.

Lemma rsi_zero_gain g l :
  g == 0 -> 0 < l ->
  exists q, rsi_of_rs (F.div (Fin g) (Fin l)) = Fin q ∧ q == 0.
Proof.
  intros Hg Hl. simpl. rewrite (proj1 (Qgt_alt _ _) Hl).
  assert (Hr : g / l == 0) by (rewrite Hg; field; lra).
  unfold rsi_of_rs. simpl.
  assert (H1 : 0 < 1 + g / l) by (rewrite Hr; lra).
  rewrite (proj1 (Qgt_alt _ _) H1). simpl.
  eexists. split; [reflexivity |]. rewrite Hr. reflexivity.
Qed.

(** Gains and losses of rising prices. *)
Lemma gain_loss_increasing series :
  increasing series ->
  Forall zero_cell (rsi_loss series) ∧
  (forall i g, (1 <= i)%nat -> rsi_gain series !! i = Some g ->
               positive_cell g).
Proof.
  intros Hinc. split.
  - apply Forall_lookup. intros i l Hl.
    destruct (lookup_lt_is_Some_2 (rsi_gain series) i) as [g Hg].
    { apply lookup_lt_Some in Hl. unfold rsi_loss, rsi_gain, series_where in *.
      by rewrite !List.length_map in *. }
    destruct (lookup_gain_loss _ _ _ _ Hg Hl) as (d & Hd & _ & ->).
    apply lookup_rsi_delta in Hd
      as [[_ ->] | (j & a & b & _ & Ha & Hb & ->)]; [done |].
    pose proof (Hinc _ _ _ Ha Hb). simpl.
    rewrite ltb_of_le by lra. simpl. lra.
  - intros i g Hi Hg.
    destruct (lookup_lt_is_Some_2 (rsi_loss series) i) as [l Hl].
    { apply lookup_lt_Some in Hg. unfold rsi_loss, rsi_gain, series_where in *.
      by rewrite !List.length_map in *. }
    destruct (lookup_gain_loss _ _ _ _ Hg Hl) as (d & Hd & -> & _).
    apply lookup_rsi_delta in Hd
      as [[-> _] | (j & a & b & _ & Ha & Hb & ->)]; [lia |].
    pose proof (Hinc _ _ _ Ha Hb). simpl.
    rewrite ltb_of_lt by lra. simpl. lra.
Qed.

(** Gains and losses of falling prices. *)
Lemma gain_loss_decreasing series :
  decreasing series ->
  Forall zero_cell (rsi_gain series) ∧
  (forall i l, (1 <= i)%nat -> rsi_loss series !! i = Some l ->
               positive_cell l).
Proof.
  intros Hdec. split.
  - apply Forall_lookup. intros i g Hg.
    destruct (lookup_lt_is_Some_2 (rsi_loss series) i) as [l Hl].
    { apply lookup_lt_Some in Hg. unfold rsi_loss, rsi_gain, series_where in *.
      by rewrite !List.length_map in *. }
    destruct (lookup_gain_loss _ _ _ _ Hg Hl) as (d & Hd & -> & _).
    apply lookup_rsi_delta in Hd
      as [[_ ->] | (j & a & b & _ & Ha & Hb & ->)]; [done |].
    pose proof (Hdec _ _ _ Ha Hb). simpl.
    rewrite ltb_of_le by lra. simpl. lra.
  - intros i l Hi Hl.
    destruct (lookup_lt_is_Some_2 (rsi_gain series) i) as [g Hg].
    { apply lookup_lt_Some in Hl. unfold rsi_loss, rsi_gain, series_where in *.
      by rewrite !List.length_map in *. }
    destruct (lookup_gain_loss _ _ _ _ Hg Hl) as (d & Hd & _ & ->).
    apply lookup_rsi_delta in Hd
      as [[-> _] | (j & a & b & _ & Ha & Hb & ->)]; [lia |].
    pose proof (Hdec _ _ _ Ha Hb). simpl.
    rewrite ltb_of_lt by lra. simpl. lra.
Qed.

(** The rolling mean over a full window whose cells are all zero, and over
    one whose cells are not negative and whose last cell is positive. *)
Lemma rolling_mean_zero w xs i :
  Forall zero_cell xs -> (1 <= w)%nat -> (w <= i + 1)%nat ->
  (i < List.length xs)%nat ->
  exists q, rolling_mean w w xs !! i = Some (Fin q) ∧ q == 0.
Proof.
  intros Hz Hw Hwi Hi.
  pose proof (Forall_window_at _ w i xs Hz) as Hwin.
  destruct (sum_zero _ Hwin) as (s & Hs & Hs0).
  exists (s / inject_Z (Z.of_nat w)). split.
  - apply lookup_rolling_mean. split; [done |]. symmetry.
    apply window_mean_full; [| | done | done].
    + eapply Forall_impl; [exact Hwin |]. by intros [].
    + rewrite length_window_at by done. lia.
  - rewrite Hs0. field. pose proof (count_pos w Hw). lra.
Qed.

Lemma rolling_mean_positive w xs i x :
  Forall nonneg xs -> xs !! i = Some x -> positive_cell x ->
  (1 <= w)%nat -> (w <= i + 1)%nat ->
  exists q, rolling_mean w w xs !! i = Some (Fin q) ∧ 0 < q.
Proof.
  intros Hn Hx Hpos Hw Hwi.
  pose proof (lookup_lt_Some _ _ _ Hx) as Hi.
  pose proof (Forall_window_at _ w i xs Hn) as Hwin.
  destruct (sum_positive _ x Hwin (window_at_last w i xs x Hw Hx) Hpos)
    as (s & Hs & Hs0).
  exists (s / inject_Z (Z.of_nat w)). split.
  - apply lookup_rolling_mean. split; [done |]. symmetry.
    apply window_mean_full; [| | done | done].
    + eapply Forall_impl; [exact Hwin |]. by intros [].
    + rewrite length_window_at by done. lia.
  - apply Qlt_shift_div_l; [by apply count_pos | lra].
Qed.

Lemma zero_cell_nonneg xs : Forall zero_cell xs -> Forall nonneg xs.
Proof.
  intros H. eapply Forall_impl; [exact H |].
  intros [q| | |]; try done. simpl. lra.
Qed.

End RsiTrendFacts.

(** X19. On prices that rise from every row to the next the RSI is 100,
    and on prices that fall from every row to the next it is 0, on every
    row from the second on that has a full window. *)
Theorem rsi_of_trend (series : list Q) (period i : nat) :
  (1 <= period)%nat -> (period <= i + 1)%nat -> (1 <= i)%nat ->
  (i < List.length series)%nat ->
  (increasing series ->
   exists q, StockDetailsPage.calculate_rsi series period !! i = Some (Fin q)
             ∧ q == 100) ∧
  (decreasing series ->
   exists q, StockDetailsPage.calculate_rsi series period !! i = Some (Fin q)
             ∧ q == 0).
Proof.
  intros Hp Hpi Hi Hlen.
  assert (Hg : List.length (StockDetailsPage.rsi_gain series)
               = List.length series).
  { unfold StockDetailsPage.rsi_gain, Series.series_where,
      StockDetailsPage.rsi_delta, Series.of_prices.
    by rewrite List.length_map, length_diff, List.length_map. }
  assert (Hl : List.length (StockDetailsPage.rsi_loss series)
               = List.length series).
  { unfold StockDetailsPage.rsi_loss, Series.series_where,
      StockDetailsPage.rsi_delta, Series.of_prices.
    by rewrite !List.length_map, length_diff, List.length_map. }
  split.
  - intros Hinc. destruct (gain_loss_increasing series Hinc) as [Hz Hpos].
    destruct (lookup_lt_is_Some_2 (StockDetailsPage.rsi_gain series) i)
      as [g Hgi]; [lia |].
    destruct (rolling_mean_positive period _ i g
                (rsi_gain_nonneg series) Hgi (Hpos i g Hi Hgi) Hp Hpi)
      as (ag & Hag & Hag0).
    destruct (rolling_mean_zero period _ i Hz Hp Hpi) as (al & Hal & Hal0);
      [lia |].
    rewrite (lookup_calculate_rsi _ _ _ _ _ Hag Hal).
    destruct (rsi_zero_loss ag al Hag0 Hal0) as (q & -> & Hq). by exists q.
  - intros Hdec. destruct (gain_loss_decreasing series Hdec) as [Hz Hpos].
    destruct (lookup_lt_is_Some_2 (StockDetailsPage.rsi_loss series) i)
      as [l Hli]; [lia |].
    destruct (rolling_mean_positive period _ i l
                (rsi_loss_nonneg series) Hli (Hpos i l Hi Hli) Hp Hpi)
      as (al & Hal & Hal0).
    destruct (rolling_mean_zero period _ i Hz Hp Hpi) as (ag & Hag & Hag0);
      [lia |].
    rewrite (lookup_calculate_rsi _ _ _ _ _ Hag Hal).
    destruct (rsi_zero_gain ag al Hag0 Hal0) as (q & -> & Hq). by exists q.
Qed.

Lemma rsi_of_trend_witness :
  (exists q, StockDetailsPage.calculate_rsi [1; 2; 4; 5] 3 !! 3%nat
               = Some (Fin q) ∧ q == 100) ∧
  (exists q, StockDetailsPage.calculate_rsi [9; 7; 4; 1] 3 !! 2%nat
               = Some (Fin q) ∧ q == 0).
Proof.
  split.
  - apply (rsi_of_trend [1; 2; 4; 5] 3 3); [simpl; lia.. |].
    intros i a b Ha Hb.
    do 4 (destruct i as [|i]; [simplify_eq/=; try reflexivity |]).
    simplify_eq/=.
  - apply (rsi_of_trend [9; 7; 4; 1] 3 2); [simpl; lia.. |].
    intros i a b Ha Hb.
    do 4 (destruct i as [|i]; [simplify_eq/=; try reflexivity |]).
    simplify_eq/=.
Defined.

(** ** Entries that add nothing *)

Section NothingToAdd.

Import HomePage.

Lemma add_step_skip valid wl inv t :
  t ∈ wl ∨ (25 <= List.length wl)%nat -> add_step valid (wl, inv) t = (wl, inv).
Proof.
  intros H. unfold add_step.
  destruct (0 <? List.length t)%nat; simpl; [| done].
  destruct (mem t wl) eqn:Em; simpl; [done |].
  destruct (List.length wl <? 25)%nat eqn:Ec; simpl; [| done].
  apply mem_false in Em. apply Nat.ltb_lt in Ec.
  destruct H; [done | lia].
Qed.

Lemma add_loop_skip valid wl inv tickers :
  Forall (fun t => t ∈ wl ∨ (25 <= List.length wl)%nat) tickers ->
  add_loop valid tickers (wl, inv) = (wl, inv).
Proof.
  induction 1 as [|t ts Ht _ IH]; [done |].
  change (add_loop valid (t :: ts) (wl, inv))
    with (add_loop valid ts (add_step valid (wl, inv) t)).
  by rewrite add_step_skip.
Qed.

End NothingToAdd.

(** X20. When every parsed ticker is already in the watchlist, or the
    watchlist holds 25 tickers, or the entry holds no ticker at all, the call
    adds nothing and reports nothing: the watchlist is unchanged, the label
    is cleared even for tickers the validity check would reject, and the
    unchanged list is written to the file once more. *)
Theorem nothing_to_add (uc : N -> list N) (valid : list N -> bool)
    (mw : main_window) (text : list N) :
  (List.length (HomePage.parse_tickers uc text) <= 5)%nat ->
  Forall (fun t => t ∈ watchlist mw ∨ (25 <= List.length (watchlist mw))%nat)
         (HomePage.parse_tickers uc text) ->
  let mw' := HomePage.add_to_watchlist_from_entry uc valid mw text in
  let path := watchlist_path (Auth.current_user (auth mw)) in
  watchlist mw' = watchlist mw ∧
  HomePage.invalid_of uc valid mw text = [] ∧
  home_error_label mw' = [] ∧
  files mw' = <[path := watchlist mw]> (files mw) ∧
  file_writes mw' = path :: file_writes mw.
Proof.
  intros Hlen Hskip mw' path. subst mw' path.
  unfold HomePage.invalid_of, HomePage.add_to_watchlist_from_entry.
  rewrite (proj2 (Nat.ltb_ge _ _) Hlen).
  by rewrite (add_loop_skip valid _ [] _ Hskip).
Qed.

Lemma nothing_to_add_witness :
  let mw := set_watchlist (new_main_window ∅ ∅)
              [PyStr.lit "AAPL"; PyStr.lit "MSFT"] in
  let mw' := HomePage.add_to_watchlist_from_entry uc_sample (fun _ => false) mw
               (PyStr.lit "msft, aapl") in
  watchlist mw' = [PyStr.lit "AAPL"; PyStr.lit "MSFT"] ∧
  home_error_label mw' = [] ∧
  file_writes mw' = ["None_watchlist.json"%string].
Proof.
  intros mw mw'.
  destruct (nothing_to_add uc_sample (fun _ => false) mw
              (PyStr.lit "msft, aapl"))
    as (Hw & _ & Hl & _ & Hf).
  - apply Nat.leb_le. reflexivity.
  - change (HomePage.parse_tickers uc_sample (PyStr.lit "msft, aapl"))
      with [PyStr.lit "MSFT"; PyStr.lit "AAPL"].
    repeat constructor; left; apply list_elem_of_In; simpl; tauto.
  - subst mw'. rewrite Hw, Hl, Hf. repeat split; reflexivity.
Defined.

(** ** ADX on bars without directional movement *)

Section FlatBarsFacts.

Import Series StockDetailsPage.

Lemma diff_constant (xs : list Q) (c : Q) :
  Forall (fun x => x == c) xs ->
  Forall (between_or_nan 0 0) (diff (of_prices xs)).
Proof.
  intros H. apply Forall_lookup. intros i d Hd.
  apply (lookup_rsi_delta xs) in Hd
    as [[_ ->] | (j & a & b & _ & Ha & Hb & ->)]; [done |].
  rewrite Forall_lookup in H.
  pose proof (H _ _ Ha). pose proof (H _ _ Hb). simpl. lra.
Qed.

Lemma clip_abs_zero d :
  between_or_nan 0 0 d ->
  between_or_nan 0 0 (F.clip_lower 0 d) ∧
  between_or_nan 0 0 (F.abs (F.clip_upper 0 d)).
Proof.
  destruct d as [q| | |]; try done. simpl. intros Hq.
  assert (Hq0 : q == 0) by lra.
  rewrite Hq0. by vm_compute.
Qed.

Lemma di_of_zero s a :
  between_or_nan 0 0 s -> fin_or_nan a ->
  between_or_nan 0 0 (di_of s a).
Proof.
  destruct s as [s| | |], a as [a| | |]; try done. simpl. intros Hs _.
  assert (Hs0 : 100 * s == 0) by lra.
  unfold di_of. simpl. destruct (a ?= 0) eqn:Ea.
  - by rewrite (proj1 (Qeq_alt _ _) Hs0).
  - apply Qlt_alt in Ea. simpl.
    assert (E : 100 * s / a == 0) by (rewrite Hs0; field; lra). lra.
  - apply Qgt_alt in Ea. simpl.
    assert (E : 100 * s / a == 0) by (rewrite Hs0; field; lra). lra.
Qed.

Lemma dx_of_zero p m :
  between_or_nan 0 0 p -> between_or_nan 0 0 m -> dx_of p m = NaN.
Proof.
  destruct p as [p| | |], m as [m| | |]; try done. simpl. intros Hp Hm.
  unfold dx_of. simpl.
  assert (E1 : p + m == 0) by lra. assert (E2 : p + - m == 0) by lra.
  by rewrite (proj1 (Qeq_alt _ _) E1), (proj1 (Qeq_alt _ _) E2).
Qed.

Lemma clean_zero xs :
  Forall (between_or_nan 0 0) xs -> Forall zero_cell (clean xs).
Proof.
  intros H. unfold clean. rewrite map_fmap. apply Forall_fmap.
  eapply Forall_impl; [exact H |].
  intros [q| | |]; try done. simpl. lra.
Qed.

End FlatBarsFacts.

(** X21. When all bars have the same high and the same low there is no
    directional movement, and ADX, +DI and -DI are 0 on every row. *)
Theorem adx_of_flat_bars (data : list bar) (period : nat) (h l : Q)
    (adx plus_di minus_di : list fval) :
  (forall b, b ∈ data -> High b == h ∧ Low b == l) ->
  StockDetailsPage.calculate_adx data period = Some (adx, plus_di, minus_di) ->
  Forall zero_cell adx ∧ Forall zero_cell plus_di ∧ Forall zero_cell minus_di.
Proof.
  intros Hflat. unfold StockDetailsPage.calculate_adx.
  destruct (period =? 0)%nat; [done |]. intros [= <- <- <-].
  assert (Hh : Forall (fun x => x == h) (List.map High data)).
  { rewrite map_fmap. apply Forall_fmap, Forall_forall.
    intros b Hb. by apply Hflat. }
  assert (Hl : Forall (fun x => x == l) (List.map Low data)).
  { rewrite map_fmap. apply Forall_fmap, Forall_forall.
    intros b Hb. by apply Hflat. }
  assert (Hatr : Forall fin_or_nan (StockDetailsPage.adx_atr data period)).
  { apply rolling_mean_fin_or_nan, adx_tr_fin_or_nan. }
  assert (Hp : Forall (between_or_nan 0 0)
                 (StockDetailsPage.adx_plus_di_raw data period)).
  { unfold StockDetailsPage.adx_plus_di_raw.
    eapply Forall_zip_with_2; [apply di_of_zero | | exact Hatr].
    apply rolling_mean_between. unfold StockDetailsPage.adx_plus_dm.
    rewrite map_fmap. apply Forall_fmap.
    eapply Forall_impl; [apply (diff_constant _ h Hh) |].
    intros d Hd. by apply clip_abs_zero. }
  assert (Hm : Forall (between_or_nan 0 0)
                 (StockDetailsPage.adx_minus_di_raw data period)).
  { unfold StockDetailsPage.adx_minus_di_raw.
    eapply Forall_zip_with_2; [apply di_of_zero | | exact Hatr].
    apply rolling_mean_between. unfold StockDetailsPage.adx_minus_dm.
    rewrite !map_fmap. apply Forall_fmap, Forall_fmap.
    eapply Forall_impl; [apply (diff_constant _ l Hl) |].
    intros d Hd. by apply clip_abs_zero. }
  split; [| split; by apply clean_zero].
  apply clean_zero. unfold StockDetailsPage.adx_raw.
  apply rolling_mean_between. unfold StockDetailsPage.adx_dx.
  eapply Forall_impl.
  - eapply (Forall_zip_with_2 _ _ _ (eq NaN));
      [| exact Hp | exact Hm].
    intros p m Hp' Hm'. symmetry. by apply dx_of_zero.
  - by intros d <-.
Qed.

Lemma adx_of_flat_bars_witness :
  let data := [ohlc 12 10 11; ohlc 12 10 10; ohlc 12 10 12] in
  Forall zero_cell (StockDetailsPage.clean (StockDetailsPage.adx_raw data 2)) ∧
  Forall zero_cell
    (StockDetailsPage.clean (StockDetailsPage.adx_plus_di_raw data 2)).
Proof.
  intros data.
  destruct (adx_of_flat_bars data 2 12 10
              (StockDetailsPage.clean (StockDetailsPage.adx_raw data 2))
              (StockDetailsPage.clean (StockDetailsPage.adx_plus_di_raw data 2))
              (StockDetailsPage.clean (StockDetailsPage.adx_minus_di_raw data 2)))
    as (Ha & Hp & _).
  - intros b Hb. apply list_elem_of_In in Hb. simpl in Hb.
    destruct Hb as [<- | [<- | [<- | []]]]; split; reflexivity.
  - reflexivity.
  - by split.
Defined.
